(** * pptxremovewatermark: removal of hyperlinked pictures from slide masters

    A shallow embedding of [pptxremovewatermark.py].  The script opens a
    presentation with python-pptx, walks the shapes of every slide master
    and of every slide layout, detaches the pictures that carry a
    hyperlink (and the groups that hold such a picture), asks where to
    save and writes the file.

    Modelling choices.
    - An XML element is a number.  python-pptx shapes are proxies of
      elements and compare equal exactly when they proxy the same
      element, so a shape is identified with its element.
    - The element tree is the one lxml keeps: one parent pointer per
      element and a document order.  The children of an element are the
      elements whose parent it is, in document order.
    - Standard output is the list of texts written, one entry per call
      of [print] (its final newline left implicit) and one per prompt of
      [input].  Standard input is the list of lines still to be read.
    - [os.path], [Presentation], [save] and the string methods [strip]
      and [upper] are taken from outside, as fields of [Env]: the script
      only passes on or compares what they return. *)

From Stdlib Require Import ZArith Ascii String List.
From stdpp Require Import gmap strings list fin_maps pretty.

Open Scope string_scope.
Open Scope list_scope.

(** ** Data model *)

(** The members of [pptx.enum.shapes.MSO_SHAPE_TYPE]. *)
Inductive MSO_SHAPE_TYPE :=
  | AUTO_SHAPE | CALLOUT | CANVAS | CHART | COMMENT | DIAGRAM
  | EMBEDDED_OLE_OBJECT | FORM_CONTROL | FREEFORM | GROUP | IGX_GRAPHIC
  | INK | INK_COMMENT | LINE | LINKED_OLE_OBJECT | LINKED_PICTURE | MEDIA
  | OLE_CONTROL_OBJECT | PICTURE | PLACEHOLDER | SCRIPT_ANCHOR | TABLE
  | TEXT_BOX | TEXT_EFFECT | WEB_VIDEO | MIXED.

#[global] Instance MSO_SHAPE_TYPE_eq_dec : EqDecision MSO_SHAPE_TYPE.
Proof. solve_decision. Defined.

(** [shape.click_action.hyperlink.address]: every link of the chain may be
    missing ([None]), and the address may be the empty string. *)
Record Hyperlink := mkHyperlink { address : option string }.
Record ActionSetting := mkActionSetting { hyperlink : option Hyperlink }.

(** What the scanner reads of a shape. *)
Record Shape := mkShape {
  shape_type : MSO_SHAPE_TYPE;
  name : string;
  click_action : option ActionSetting
}.

(** The element tree behind a presentation. *)
Record Document := mkDocument {
  proxy : nat -> Shape;      (* the shape proxying each element *)
  order : list nat;          (* the elements in document order *)
  parent : gmap nat nat      (* [getparent()]; no entry: [None] *)
}.

(** Iterating a shape collection ([slide_master.shapes], [group.shapes])
    yields the child elements of its element, in document order. *)
Definition iter_shapes (d : Document) (collection : nat) : list nat :=
  filter (fun e => parent d !! e = Some collection) (order d).

(** Python values a function of the script can hand back. *)
Inductive Value :=
  | VNone
  | VInt (n : Z)
  | VTuple2 (v1 v2 : Value).

Inductive Exception :=
  | AttributeError (msg : string)
  | EOFError
  | OtherError (msg : string).

(** [str(e)] *)
Definition str (e : Exception) : string :=
  match e with
  | AttributeError msg => msg
  | EOFError => ""
  | OtherError msg => msg
  end.

(** ** The scan of [remove_hyperlinked_pictures_from_shapes] *)

(** The value of
    [s.click_action and s.click_action.hyperlink and
     s.click_action.hyperlink.address] when it is truthy; [None] when it is
    falsy.  An object is truthy, [None] and the empty string are falsy. *)
Definition truthy_address (s : Shape) : option string :=
  match click_action s with
  | None => None
  | Some ca =>
      match hyperlink ca with
      | None => None
      | Some h =>
          match address h with
          | None => None
          | Some a => if decide (a = "") then None else Some a
          end
      end
  end.

(** [shape.name if shape.name else 'Unnamed Picture'] *)
Definition name_or_unnamed (s : Shape) : string :=
  if decide (name s = "") then "Unnamed Picture" else name s.

Definition found_picture_line (s : Shape) (a : string) : string :=
  "Found picture with hyperlink: " +:+ a +:+ " on shape '" +:+
  name_or_unnamed s +:+ "'".

Definition found_in_group_line (group : Shape) (a : string) : string :=
  "Found picture with hyperlink within group '" +:+ name group +:+ "': " +:+ a.

(** The inner loop, lines 28-36: [for sub_shape in shape.shapes].  The state
    is the worklist [shapes_to_remove] and standard output.  On the first
    hyperlinked picture the group is appended (unless it is already in the
    worklist) and the loop is left: the rest of the children is dropped. *)
Fixpoint scan_sub_shapes (d : Document) (shape : nat) (sub_shapes : list nat)
    (shapes_to_remove : list nat) (out : list string)
    : list nat * list string :=
  match sub_shapes with
  | [] => (shapes_to_remove, out)
  | sub_shape :: rest =>
      if decide (shape_type (proxy d sub_shape) = PICTURE) then
        match truthy_address (proxy d sub_shape) with
        | Some a =>
            let out' := out ++ [found_in_group_line (proxy d shape) a] in
            if decide (shape ∈ shapes_to_remove)
            then (shapes_to_remove, out')
            else (shapes_to_remove ++ [shape], out')
        | None => scan_sub_shapes d shape rest shapes_to_remove out
        end
      else scan_sub_shapes d shape rest shapes_to_remove out
  end.

(** The body of the outer loop, lines 12-36, for one shape. *)
Definition scan_shape (d : Document) (shape : nat)
    (shapes_to_remove : list nat) (out : list string)
    : list nat * list string :=
  if decide (shape_type (proxy d shape) = PICTURE) then
    match truthy_address (proxy d shape) with
    | Some a =>
        (shapes_to_remove ++ [shape],
         out ++ [found_picture_line (proxy d shape) a])
    | None => (shapes_to_remove, out)
    end
  else if decide (shape_type (proxy d shape) = GROUP) then
    scan_sub_shapes d shape (iter_shapes d shape) shapes_to_remove out
  else (shapes_to_remove, out).

(** The outer loop, line 11: [for i, shape in enumerate(shapes_collection)]. *)
Fixpoint scan_shapes (d : Document) (shapes : list nat)
    (shapes_to_remove : list nat) (out : list string)
    : list nat * list string :=
  match shapes with
  | [] => (shapes_to_remove, out)
  | shape :: rest =>
      let '(shapes_to_remove', out') := scan_shape d shape shapes_to_remove out in
      scan_shapes d rest shapes_to_remove' out'
  end.

(** ** The removal loop *)

(** [element.getparent().remove(element)]: without a parent [getparent()]
    is [None] and the call of [remove] raises; otherwise the element is
    unlinked from its parent. *)
Definition detach (d : Document) (element : nat) : Exception + Document :=
  match parent d !! element with
  | None => inl (AttributeError "'NoneType' object has no attribute 'remove'")
  | Some _ => inr (mkDocument (proxy d) (order d) (delete element (parent d)))
  end.

(** Lines 40-46: every shape of the worklist is detached inside its own
    [try]; an exception is printed and the loop goes on. *)
Fixpoint remove_shapes (shapes_to_remove : list nat) (d : Document)
    (out : list string) : Document * list string :=
  match shapes_to_remove with
  | [] => (d, out)
  | shape_to_remove :: rest =>
      match detach d shape_to_remove with
      | inr d' => remove_shapes rest d' (out ++ ["Successfully removed shape."])
      | inl e => remove_shapes rest d (out ++ ["Could not remove shape: " +:+ str e])
      end
  end.

(** [remove_hyperlinked_pictures_from_shapes(shapes_collection)].  The
    function has no [return]: its value is [None]. *)
Definition remove_hyperlinked_pictures_from_shapes (shapes_collection : nat)
    (d : Document) (out : list string) : Value * Document * list string :=
  let '(shapes_to_remove, out1) :=
    scan_shapes d (iter_shapes d shapes_collection) [] out in
  match shapes_to_remove with
  | _ :: _ =>
      let out2 := out1 ++ ["Attempting to remove " +:+
                           pretty (length shapes_to_remove) +:+ " shapes..."] in
      let '(d', out3) := remove_shapes shapes_to_remove d out2 in
      (VNone, d', out3)
  | [] =>
      (VNone, d, out1 ++ ["No hyperlinked pictures found in this collection."])
  end.

(** The worklist the scan builds for a collection. *)
Definition worklist (d : Document) (shapes_collection : nat) : list nat :=
  fst (scan_shapes d (iter_shapes d shapes_collection) [] []).

(** ** Vocabulary of the properties *)

(** The hyperlink address a shape carries, empty or not; [None] when the
    click action, its hyperlink or the address is missing. *)
Definition hyperlink_address (s : Shape) : option string :=
  match click_action s with
  | Some ca => match hyperlink ca with
               | Some h => address h
               | None => None
               end
  | None => None
  end.

Definition has_hyperlink (s : Shape) : Prop :=
  exists a, hyperlink_address s = Some a /\ a <> "".

Definition no_hyperlink (s : Shape) : Prop :=
  hyperlink_address s = None \/ hyperlink_address s = Some "".

(** A picture with a non-empty hyperlink address. *)
Definition linked_picture (d : Document) (e : nat) : Prop :=
  shape_type (proxy d e) = PICTURE /\ has_hyperlink (proxy d e).

(** A group one of whose immediate children is such a picture. *)
Definition linked_group (d : Document) (e : nat) : Prop :=
  shape_type (proxy d e) = GROUP /\ Exists (linked_picture d) (iter_shapes d e).

(** How often a shape occurs in a list of shapes. *)
Definition occurrences (e : nat) (l : list nat) : nat :=
  count_occ Nat.eq_dec l e.

(** The document in which the function leaves its caller. *)
Definition doc_after (shapes_collection : nat) (d : Document) : Document :=
  snd (fst (remove_hyperlinked_pictures_from_shapes shapes_collection d [])).

#[global] Instance has_hyperlink_dec s : Decision (has_hyperlink s).
Proof.
  unfold has_hyperlink. destruct (hyperlink_address s) as [a|].
  - destruct (decide (a = "")) as [->|Hne].
    + right. intros (b & [= <-] & Hb). done.
    + left. by exists a.
  - right. intros (b & Hb & _). done.
Defined.

#[global] Instance linked_picture_dec d e : Decision (linked_picture d e).
Proof. unfold linked_picture. apply _. Defined.

#[global] Instance linked_group_dec d e : Decision (linked_group d e).
Proof. unfold linked_group. apply _. Defined.

(** What handing the counts back to the caller would be: the number of
    shapes removed, alone or paired with the number of failures. *)
Definition returns_counts (v : Value) (removed failures : nat) : Prop :=
  v = VInt (Z.of_nat removed) \/
  v = VTuple2 (VInt (Z.of_nat removed)) (VInt (Z.of_nat failures)).

(** The lines the removal loop prints. *)
Definition removed_line : string := "Successfully removed shape.".
Definition failed_line (e : Exception) : string :=
  "Could not remove shape: " +:+ str e.

(** ** Strings *)

(** Python strings are Unicode text, and [str.strip] and [str.upper] follow
    the Unicode tables.  The script calls them on what the user types, so
    they are taken from outside ([str_strip] and [str_upper] of [Env]
    below).  What they do to text of ASCII characters only is written out
    here, for the properties that speak of such text. *)

(** The ASCII characters with [str.isspace]: tab to carriage return, the
    four separators 28-31 and the space. *)
Definition ascii_isspace (c : ascii) : bool :=
  let n := nat_of_ascii c in
  ((9 <=? n)%nat && (n <=? 13)%nat) || ((28 <=? n)%nat && (n <=? 32)%nat).

Fixpoint ascii_lstrip (s : string) : string :=
  match s with
  | EmptyString => EmptyString
  | String c s' => if ascii_isspace c then ascii_lstrip s' else s
  end.

Fixpoint ascii_rstrip (s : string) : string :=
  match s with
  | EmptyString => EmptyString
  | String c s' =>
      match ascii_rstrip s' with
      | EmptyString => if ascii_isspace c then EmptyString else String c EmptyString
      | r => String c r
      end
  end.

(** [s.strip()] for [s] of ASCII characters. *)
Definition ascii_strip (s : string) : string := ascii_rstrip (ascii_lstrip s).

Definition upper_char (c : ascii) : ascii :=
  let n := nat_of_ascii c in
  if (97 <=? n)%nat && (n <=? 122)%nat then ascii_of_nat (n - 32) else c.

Definition lower_char (c : ascii) : ascii :=
  let n := nat_of_ascii c in
  if (65 <=? n)%nat && (n <=? 90)%nat then ascii_of_nat (n + 32) else c.

Fixpoint map_chars (f : ascii -> ascii) (s : string) : string :=
  match s with
  | EmptyString => EmptyString
  | String c s' => String (f c) (map_chars f s')
  end.

(** [s.upper()] for [s] of ASCII characters. *)
Definition ascii_upper (s : string) : string := map_chars upper_char s.

(** [s.lower()], as far as the test of the extension needs it: the letters
    [A] to [Z] are lower-cased, and no other character becomes one of
    [.pptx]. *)
Definition lower (s : string) : string := map_chars lower_char s.

(** [s.endswith(suffix)] *)
Definition endswith (s suffix : string) : bool :=
  let n := String.length s in
  let m := String.length suffix in
  (m <=? n)%nat && bool_decide (substring (n - m) m s = suffix).

(** The line feed of the texts that start on a fresh line. *)
Definition nl : string := String (ascii_of_nat 10) EmptyString.

(** ** The presentation and the world around the script *)

Record SlideLayout := mkSlideLayout {
  layout_shapes : nat                (* the element behind [slide_layout.shapes] *)
}.

Record SlideMaster := mkSlideMaster {
  master_shapes : nat;               (* the element behind [slide_master.shapes] *)
  slide_layouts : list SlideLayout
}.

Record Prs := mkPrs {
  tree : Document;
  slide_masters : list SlideMaster
}.

(** The library calls whose results the script only passes on or
    compares. *)
Record Env := mkEnv {
  os_path_exists : string -> bool;
  os_path_abspath : string -> string;
  os_path_splitext : string -> string * string;
  Presentation : string -> Exception + Prs;   (* opening may raise *)
  save_raises : string -> option Exception;   (* [prs.save(path)] may raise *)
  str_strip : string -> string;               (* [s.strip()] *)
  str_upper : string -> string                (* [s.upper()] *)
}.

(** Standard output, standard input and the files written, latest last. *)
Record State := mkState {
  stdout : list string;
  stdin : list string;
  files : list (string * Document)
}.

Definition print (s : string) (st : State) : State :=
  mkState (stdout st ++ [s]) (stdin st) (files st).

(** ** [process_presentation] *)

(** Lines 74-76: the layouts of master [i], from layout [j] on. *)
Fixpoint process_layouts (i j : nat) (layouts : list SlideLayout)
    (d : Document) (out : list string) : Document * list string :=
  match layouts with
  | [] => (d, out)
  | slide_layout :: rest =>
      let out1 := out ++ [nl +:+ "Processing Slide Layout " +:+ pretty (j + 1) +:+
                          " (from Master " +:+ pretty (i + 1) +:+ ")..."] in
      let '(_, d', out2) :=
        remove_hyperlinked_pictures_from_shapes (layout_shapes slide_layout) d out1 in
      process_layouts i (S j) rest d' out2
  end.

(** Lines 67-78: the masters, from master [i] on. *)
Fixpoint process_masters (i : nat) (masters : list SlideMaster)
    (d : Document) (out : list string) : Document * list string :=
  match masters with
  | [] => (d, out)
  | slide_master :: rest =>
      let out1 := out ++ [nl +:+ "Processing Slide Master " +:+ pretty (i + 1) +:+
                          "..."] in
      let '(_, d1, out2) :=
        remove_hyperlinked_pictures_from_shapes (master_shapes slide_master) d out1 in
      let '(d2, out3) :=
        match slide_layouts slide_master with
        | _ :: _ =>
            process_layouts i 0 (slide_layouts slide_master) d1
              (out2 ++ [nl +:+ "--- Processing " +:+
                        pretty (length (slide_layouts slide_master)) +:+
                        " Slide Layout(s) for Master " +:+ pretty (i + 1) +:+
                        " ---"])
        | [] =>
            (d1, out2 ++ ["No slide layouts found for Master " +:+
                          pretty (i + 1) +:+ "."])
        end in
      process_masters (S i) rest d2 out3
  end.

Definition choice_prompt : string :=
  "Do you want to overwrite the original file (O) or save as a new file (S)? [O/S]: ".

Definition name_prompt (default_new_path : string) : string :=
  "Enter new file name (default: " +:+ default_new_path +:+ "): ".

Definition same_name_error : string :=
  "Error: New file name cannot be the same as the original if not overwriting. Please choose a different name.".

Definition invalid_choice_error : string :=
  "Invalid choice. Please enter 'O' or 'S'.".

(** [f"{base}_modified{ext}"] *)
Definition default_new_path (env : Env) (input_path : string) : string :=
  let '(base, ext) := os_path_splitext env input_path in
  base +:+ "_modified" +:+ ext.

(** [new_path_input if new_path_input else default_new_path] *)
Definition resolve_new_path (env : Env) (input_path new_path_input : string)
    : string :=
  if decide (new_path_input = "") then default_new_path env input_path
  else new_path_input.

(** Lines 83-98: [while True].  Every [input] writes its prompt and takes
    the next line of standard input; without a line left it raises
    [EOFError], which nothing catches.  The loop ends with the values of
    [choice] and [output_path], the lines left and what was written. *)
Fixpoint save_prompt (env : Env) (input_path : string)
    (lines : list string) (out : list string)
    : (Exception + string * string) * list string * list string :=
  match lines with
  | [] => (inl EOFError, [], out ++ [choice_prompt])
  | line :: rest =>
      let out1 := out ++ [choice_prompt] in
      let choice := str_upper env (str_strip env line) in
      if decide (choice = "O") then
        (inr (choice, input_path), rest, out1)
      else if decide (choice = "S") then
        let out2 := out1 ++ [name_prompt (default_new_path env input_path)] in
        match rest with
        | [] => (inl EOFError, [], out2)
        | line2 :: rest2 =>
            let new_path_input := str_strip env line2 in
            let output_path := resolve_new_path env input_path new_path_input in
            if decide (os_path_abspath env output_path =
                       os_path_abspath env input_path)
            then save_prompt env input_path rest2 (out2 ++ [same_name_error])
            else (inr (choice, output_path), rest2, out2)
        end
      else save_prompt env input_path rest (out1 ++ [invalid_choice_error])
  end.

(** Lines 56-80: opening the file and cleaning masters and layouts.  An
    exception of [Presentation] is printed and ends the function. *)
Definition load_and_clean (env : Env) (input_path : string) (out : list string)
    : option Document * list string :=
  match Presentation env input_path with
  | inl e =>
      (None, out ++ ["Error opening presentation '" +:+ input_path +:+ "': " +:+
                     str e])
  | inr prs =>
      let out0 := out ++ ["Processing presentation: " +:+ input_path] in
      let '(d, out1) :=
        match slide_masters prs with
        | _ :: _ =>
            process_masters 0 (slide_masters prs) (tree prs)
              (out0 ++ [nl +:+ "--- Processing " +:+
                        pretty (length (slide_masters prs)) +:+
                        " Slide Master(s) ---"])
        | [] => (tree prs, out0 ++ ["No slide masters found in the presentation."])
        end in
      (Some d, out1)
  end.

(** Lines 100-104: saving inside [try]. *)
Definition save (env : Env) (d : Document) (output_path : string) (st : State)
    : State :=
  match save_raises env output_path with
  | None =>
      mkState (stdout st ++ ["Presentation saved to: " +:+ output_path])
              (stdin st) (files st ++ [(output_path, d)])
  | Some e =>
      print ("Error saving presentation to '" +:+ output_path +:+ "': " +:+ str e)
            st
  end.

(** [process_presentation(input_path)]: its value, or the exception it
    lets through, and the state it leaves. *)
Definition process_presentation (env : Env) (input_path : string) (st : State)
    : (Exception + Value) * State :=
  match load_and_clean env input_path (stdout st) with
  | (None, out) => (inr VNone, mkState out (stdin st) (files st))
  | (Some d, out) =>
      match save_prompt env input_path (stdin st) out with
      | (inl e, lines, out') => (inl e, mkState out' lines (files st))
      | (inr (choice, output_path), lines, out') =>
          (inr VNone, save env d output_path (mkState out' lines (files st)))
      end
  end.

(** ** The script *)

(** Lines 112-117, with [args.input_file] already parsed. *)
Definition main (env : Env) (input_file : string) (st : State)
    : (Exception + Value) * State :=
  if negb (os_path_exists env input_file) then
    (inr VNone, print ("Error: Input file '" +:+ input_file +:+ "' not found.") st)
  else if negb (endswith (lower input_file) ".pptx") then
    (inr VNone,
     print ("Error: Input file '" +:+ input_file +:+ "' is not a .pptx file.") st)
  else process_presentation env input_file st.

(** The exit status of the interpreter: 0 when the script runs to its end,
    1 when an exception is not caught. *)
Definition exit_status (r : Exception + Value) : Z :=
  match r with
  | inr _ => 0
  | inl _ => 1
  end.

(** The two checks of the command line. *)
Definition validation_fails (env : Env) (input_file : string) : Prop :=
  os_path_exists env input_file = false \/
  endswith (lower input_file) ".pptx" = false.

(** A string of ASCII white space only. *)
Fixpoint all_space (s : string) : bool :=
  match s with
  | EmptyString => true
  | String c s' => ascii_isspace c && all_space s'
  end.

(** A string of ASCII characters only. *)
Fixpoint is_ascii (s : string) : bool :=
  match s with
  | EmptyString => true
  | String c s' => (nat_of_ascii c <? 128)%nat && is_ascii s'
  end.

(** On ASCII text the two methods are the functions written out above. *)
Definition methods_on_ascii (env : Env) : Prop :=
  forall s, is_ascii s = true ->
    str_strip env s = ascii_strip s /\ str_upper env s = ascii_upper s.


(** What the prompt loop can end with: the input path under [O], a path
    with another absolute path under [S]. *)
Definition prompt_result_ok (env : Env) (input_path choice output_path : string)
    : Prop :=
  (choice = "O" /\ output_path = input_path) \/
  (choice = "S" /\
   os_path_abspath env output_path <> os_path_abspath env input_path).

(** ** Vocabulary of the traversal *)

(** What the scan is after: a linked picture or a group holding one. *)
Definition to_remove (d : Document) (e : nat) : Prop :=
  linked_picture d e \/ linked_group d e.

(** The collections [process_presentation] hands to the remover for one
    master: its own shapes, then the shapes of each of its layouts. *)
Definition collections_of (m : SlideMaster) : list nat :=
  master_shapes m :: map layout_shapes (slide_layouts m).

Definition collections (masters : list SlideMaster) : list nat :=
  concat (map collections_of masters).

(** The remover run on a list of collections, one after the other. *)
Definition clean (cs : list nat) (d : Document) : Document :=
  fold_left (fun d' c => doc_after c d') cs d.

(** The name splits into a stem and an extension that is [.pptx] up to
    the case of its letters. *)
Definition has_pptx_extension (input_file : string) : Prop :=
  exists stem ext, input_file = stem +:+ ext /\ lower ext = ".pptx".

(** An answer that normalises to neither [O] nor [S]. *)
Definition invalid_choice (env : Env) (line : string) : Prop :=
  str_upper env (str_strip env line) <> "O" /\
  str_upper env (str_strip env line) <> "S".

(** ** Sample documents *)

Definition linked (a : string) : option ActionSetting :=
  Some (mkActionSetting (Some (mkHyperlink (Some a)))).
Definition unlinked : option ActionSetting :=
  Some (mkActionSetting (Some (mkHyperlink None))).

(** Scenario A: a master (element 0) with a hyperlinked picture (1) and a
    text box (2). *)
Definition scenarioA : Document :=
  mkDocument
    (fun e => match e with
              | 1 => mkShape PICTURE "Logo" (linked "http://x")
              | 2 => mkShape TEXT_BOX "Title" unlinked
              | _ => mkShape GROUP "" None
              end)
    [0; 1; 2]
    (list_to_map [(1, 0); (2, 0)]).


(** Scenario B: a layout (element 0) with a group (1) of two pictures, one
    with an empty address (2) and one without address (3). *)
Definition scenarioB : Document :=
  mkDocument
    (fun e => match e with
              | 1 => mkShape GROUP "Pair" None
              | 2 => mkShape PICTURE "Left" (linked "")
              | 3 => mkShape PICTURE "Right" unlinked
              | _ => mkShape GROUP "" None
              end)
    [0; 1; 2; 3]
    (list_to_map [(1, 0); (2, 1); (3, 1)]).

(** Scenario C: a master (element 0) with a group (1) of a hyperlinked
    picture (2) and a text box (3). *)
Definition scenarioC : Document :=
  mkDocument
    (fun e => match e with
              | 1 => mkShape GROUP "Stamp" None
              | 2 => mkShape PICTURE "Mark" (linked "http://y")
              | 3 => mkShape TEXT_BOX "Caption" None
              | _ => mkShape GROUP "" None
              end)
    [0; 1; 2; 3]
    (list_to_map [(1, 0); (2, 1); (3, 1)]).

(** A master (element 0) with pictures with and without a link, a group
    with two linked pictures, and a picture two groups deep. *)
Definition sample : Document :=
  mkDocument
    (fun e => match e with
              | 1 => mkShape PICTURE "Logo" (linked "http://x")
              | 2 => mkShape TEXT_BOX "Title" None
              | 3 => mkShape PICTURE "Banner" (linked "")
              | 4 => mkShape PICTURE "Photo" None
              | 5 => mkShape GROUP "Badge" None
              | 6 => mkShape PICTURE "Frame" unlinked
              | 7 => mkShape PICTURE "Mark" (linked "http://y")
              | 8 => mkShape PICTURE "Seal" (linked "http://z")
              | 9 => mkShape GROUP "Outer" None
              | 10 => mkShape GROUP "Inner" None
              | 11 => mkShape PICTURE "Deep" (linked "http://deep")
              | 12 => mkShape PICTURE "" (linked "http://w")
              | 13 => mkShape AUTO_SHAPE "Box" None
              | _ => mkShape GROUP "" None
              end)
    [0; 1; 2; 3; 4; 5; 6; 7; 8; 9; 10; 11; 12; 13]
    (list_to_map [(1, 0); (2, 0); (3, 0); (4, 0); (5, 0); (6, 5); (7, 5);
                  (8, 5); (9, 0); (10, 9); (11, 10); (12, 0); (13, 0)]).

(** A master (element 0) with neither picture nor group. *)
Definition plain : Document :=
  mkDocument
    (fun e => match e with
              | 1 => mkShape TEXT_BOX "Title" None
              | 2 => mkShape AUTO_SHAPE "Box" (linked "http://x")
              | 3 => mkShape PLACEHOLDER "Footer" None
              | _ => mkShape GROUP "" None
              end)
    [0; 1; 2; 3]
    (list_to_map [(1, 0); (2, 0); (3, 0)]).

(** A working directory with two files: [notes.txt], and [deck.pptx] which
    holds [sample] under one master without layouts. *)
Definition sample_abspath (p : string) : string :=
  if decide (p = "./deck.pptx") then "/home/user/deck.pptx"
  else match p with
       | String "/" _ => p
       | _ => "/home/user/" +:+ p
       end.

Definition sample_splitext (p : string) : string * string :=
  if decide (p = "deck.pptx") then ("deck", ".pptx") else (p, "").

Definition sample_env : Env :=
  mkEnv (fun p => bool_decide (p = "deck.pptx" \/ p = "notes.txt"))
        sample_abspath
        sample_splitext
        (fun p => if decide (p = "deck.pptx")
                  then inr (mkPrs sample [mkSlideMaster 0 []])
                  else inl (OtherError "Package not found"))
        (fun _ => None)
        ascii_strip
        ascii_upper.

Definition start (lines : list string) : State := mkState [] lines [].

(** Scenario D: a file without slide masters. *)
Definition empty_env : Env :=
  mkEnv (fun _ => true) sample_abspath sample_splitext
        (fun _ => inr (mkPrs scenarioA []))
        (fun _ => None)
        ascii_strip
        ascii_upper.

(** A deck with a master (element 0), two layouts (20 and 30) and a slide
    (40) that no master or layout holds. *)
Definition deck_doc : Document :=
  mkDocument
    (fun e => match e with
              | 1 => mkShape PICTURE "Logo" (linked "http://x")
              | 2 => mkShape TEXT_BOX "Title" None
              | 21 => mkShape PICTURE "Corner" (linked "http://c")
              | 22 => mkShape PLACEHOLDER "Body" None
              | 31 => mkShape GROUP "Stamp" None
              | 32 => mkShape PICTURE "Mark" (linked "http://y")
              | 33 => mkShape TEXT_BOX "Caption" None
              | 41 => mkShape PICTURE "Photo" (linked "http://p")
              | _ => mkShape GROUP "" None
              end)
    [0; 1; 2; 20; 21; 22; 30; 31; 32; 33; 40; 41]
    (list_to_map [(1, 0); (2, 0); (21, 20); (22, 20); (31, 30); (32, 31);
                  (33, 31); (41, 40)]).

Definition deck_masters : list SlideMaster :=
  [mkSlideMaster 0 [mkSlideLayout 20; mkSlideLayout 30]].

Definition deck_env : Env :=
  mkEnv (fun p => bool_decide (p = "deck.pptx"))
        sample_abspath
        sample_splitext
        (fun _ => inr (mkPrs deck_doc deck_masters))
        (fun p => if decide (p = "locked.pptx")
                  then Some (OtherError "Permission denied") else None)
        ascii_strip
        ascii_upper.

(** The same deck once cleaned: nothing is left to remove. *)
Definition clean_masters : list SlideMaster :=
  [mkSlideMaster 0 [mkSlideLayout 20]].

(** The long s (U+017F) and the no-break space (U+00A0) as the bytes of
    their UTF-8 encoding. *)
Definition long_s : string :=
  String (ascii_of_nat 197) (String (ascii_of_nat 191) EmptyString).
Definition nbsp : string :=
  String (ascii_of_nat 194) (String (ascii_of_nat 160) EmptyString).

(** Methods that also know two facts of the Unicode tables: the long s
    upper-cases to [S], and the no-break space is white space (here: around
    a one-letter answer). *)
Definition unicode_strip (s : string) : string :=
  if decide (s = nbsp +:+ "o" +:+ nbsp) then "o" else ascii_strip s.

Definition unicode_upper (s : string) : string :=
  if decide (s = long_s) then "S" else ascii_upper s.

Definition unicode_env : Env :=
  mkEnv (os_path_exists sample_env) sample_abspath sample_splitext
        (Presentation sample_env) (save_raises sample_env)
        unicode_strip unicode_upper.

(** Decidable facts about the sample documents, by evaluation. *)
Ltac decide_by_compute :=
  apply (bool_decide_unpack _); vm_compute; exact I.
(** ** Truthiness of the address chain *)

Lemma truthy_address_Some s a :
  truthy_address s = Some a <-> hyperlink_address s = Some a /\ a <> "".
Proof.
  unfold truthy_address, hyperlink_address.
  destruct (click_action s) as [ca|]; [|split; [done|intros [? _]; done]].
  destruct (hyperlink ca) as [h|]; [|split; [done|intros [? _]; done]].
  destruct (address h) as [b|]; [|split; [done|intros [? _]; done]].
  case_decide as Hb; split.
  - done.
  - intros [[= ->] Hne]. done.
  - intros [= ->]. done.
  - intros [? _]. done.
Qed.

Lemma truthy_address_None s :
  truthy_address s = None <-> no_hyperlink s.
Proof.
  unfold truthy_address, no_hyperlink, hyperlink_address.
  destruct (click_action s) as [ca|]; [|split; [by left|done]].
  destruct (hyperlink ca) as [h|]; [|split; [by left|done]].
  destruct (address h) as [b|]; [|split; [by left|done]].
  case_decide as Hb; split.
  - intros _. right. by subst.
  - done.
  - done.
  - intros [?|[= ->]]; done.
Qed.

Lemma has_hyperlink_truthy s :
  has_hyperlink s <-> is_Some (truthy_address s).
Proof.
  split.
  - intros (a & Ha & Hne). exists a. by apply truthy_address_Some.
  - intros [a Ha]. exists a. by apply truthy_address_Some.
Qed.

Lemma no_hyperlink_not_has s : no_hyperlink s <-> ~ has_hyperlink s.
Proof.
  rewrite <- truthy_address_None, has_hyperlink_truthy.
  destruct (truthy_address s) as [a|].
  - split; [done|]. intros H. destruct H. by exists a.
  - split; [|done]. intros _ [? ?]. done.
Qed.

(** ** The scan, loop by loop *)

Section Scan.
Variable d : Document.

Lemma scan_sub_shapes_none shape subs wl out :
  Forall (fun c => ~ linked_picture d c) subs ->
  scan_sub_shapes d shape subs wl out = (wl, out).
Proof.
  induction 1 as [|c subs Hc _ IH]; simpl; [done|].
  case_decide as Hty; [|done].
  destruct (truthy_address (proxy d c)) as [a|] eqn:Ha; [|done].
  destruct Hc. split; [done|]. apply has_hyperlink_truthy. by exists a.
Qed.

Lemma scan_sub_shapes_first shape pre c post a wl out :
  Forall (fun c => ~ linked_picture d c) pre ->
  shape_type (proxy d c) = PICTURE ->
  truthy_address (proxy d c) = Some a ->
  scan_sub_shapes d shape (pre ++ c :: post) wl out =
  (if decide (shape ∈ wl) then wl else wl ++ [shape],
   out ++ [found_in_group_line (proxy d shape) a]).
Proof.
  intros Hpre Hty Ha.
  induction Hpre as [|c0 pre Hc0 _ IH]; simpl.
  - rewrite decide_True by done. rewrite Ha. by case_decide.
  - destruct (decide (shape_type (proxy d c0) = PICTURE)) as [Hty0|]; [|exact IH].
    destruct (truthy_address (proxy d c0)) as [a0|] eqn:Ha0; [|exact IH].
    destruct Hc0. split; [done|]. apply has_hyperlink_truthy. by exists a0.
Qed.

(** The first element of a list with a decidable property. *)
Lemma first_match (P : nat -> Prop) `{!forall x, Decision (P x)} (l : list nat) :
  Exists P l ->
  exists pre c post, l = pre ++ c :: post /\ Forall (fun x => ~ P x) pre /\ P c.
Proof.
  induction l as [|x l IH]; intros HE; [by inversion HE|].
  destruct (decide (P x)) as [Hx|Hx].
  - exists [], x, l. by repeat split.
  - inversion HE as [|? ? HE']; subst; [done|].
    destruct (IH HE') as (pre & c & post & -> & Hpre & Hc).
    exists (x :: pre), c, post. repeat split; [|done]. by constructor.
Qed.

Lemma scan_sub_shapes_some shape subs wl out :
  Exists (linked_picture d) subs ->
  fst (scan_sub_shapes d shape subs wl out) =
  if decide (shape ∈ wl) then wl else wl ++ [shape].
Proof.
  intros HE.
  destruct (first_match _ _ HE) as (pre & c & post & -> & Hpre & Hty & Hh).
  apply has_hyperlink_truthy in Hh as [a Ha].
  by rewrite (scan_sub_shapes_first _ _ _ _ a).
Qed.

(** What one turn of the outer loop does to the worklist. *)
Lemma scan_shape_picture shape wl out :
  linked_picture d shape ->
  fst (scan_shape d shape wl out) = wl ++ [shape].
Proof.
  intros [Hty Hh]. apply has_hyperlink_truthy in Hh as [a Ha].
  unfold scan_shape. rewrite decide_True by done. by rewrite Ha.
Qed.

Lemma scan_shape_group shape wl out :
  linked_group d shape ->
  fst (scan_shape d shape wl out) =
  if decide (shape ∈ wl) then wl else wl ++ [shape].
Proof.
  intros [Hty HE]. unfold scan_shape.
  rewrite decide_False by congruence. rewrite decide_True by done.
  by apply scan_sub_shapes_some.
Qed.

Lemma scan_shape_skip shape wl out :
  ~ linked_picture d shape -> ~ linked_group d shape ->
  scan_shape d shape wl out = (wl, out).
Proof.
  intros Hp Hg. unfold scan_shape.
  case_decide as Hty.
  - destruct (truthy_address (proxy d shape)) as [a|] eqn:Ha; [|done].
    destruct Hp. split; [done|]. apply has_hyperlink_truthy. by exists a.
  - case_decide as Hty'; [|done].
    apply scan_sub_shapes_none. apply Forall_forall. intros c Hc Hl.
    apply Hg. split; [done|]. apply Exists_exists. eauto.
Qed.

Lemma linked_picture_not_group e : linked_picture d e -> ~ linked_group d e.
Proof. intros [H1 _] [H2 _]. congruence. Qed.

(** The three cases are the only ones. *)
Lemma scan_shape_cases shape wl out :
  fst (scan_shape d shape wl out) =
  if decide (linked_picture d shape) then wl ++ [shape]
  else if decide (linked_group d shape)
       then (if decide (shape ∈ wl) then wl else wl ++ [shape])
       else wl.
Proof.
  destruct (decide (linked_picture d shape)) as [Hp|Hp].
  - by apply scan_shape_picture.
  - destruct (decide (linked_group d shape)) as [Hg|Hg].
    + by apply scan_shape_group.
    + by rewrite scan_shape_skip.
Qed.

Lemma scan_shapes_cons shape rest wl out :
  fst (scan_shapes d (shape :: rest) wl out) =
  fst (scan_shapes d rest (fst (scan_shape d shape wl out))
                          (snd (scan_shape d shape wl out))).
Proof. simpl. by destruct (scan_shape d shape wl out). Qed.

(** Membership in the worklist. *)
Lemma scan_shapes_elem shapes : forall wl out x,
  x ∈ fst (scan_shapes d shapes wl out) <->
  x ∈ wl \/ (x ∈ shapes /\ (linked_picture d x \/ linked_group d x)).
Proof.
  induction shapes as [|s rest IH]; intros wl out x.
  - simpl. rewrite elem_of_nil. tauto.
  - rewrite scan_shapes_cons, IH, scan_shape_cases, elem_of_cons.
    repeat case_decide; rewrite ?elem_of_app, ?list_elem_of_singleton;
      intuition (subst; tauto).
Qed.
End Scan.

(** ** Counting occurrences in the worklist *)

Lemma occurrences_app e l1 l2 :
  occurrences e (l1 ++ l2) = occurrences e l1 + occurrences e l2.
Proof. apply count_occ_app. Qed.

Lemma occurrences_singleton e x :
  occurrences e [x] = if decide (x = e) then 1 else 0.
Proof.
  unfold occurrences. simpl.
  destruct (Nat.eq_dec x e); case_decide; congruence.
Qed.

Lemma occurrences_cons e x l :
  occurrences e (x :: l) = (if decide (x = e) then 1 else 0) + occurrences e l.
Proof.
  change (x :: l) with ([x] ++ l).
  by rewrite occurrences_app, occurrences_singleton.
Qed.

Lemma occurrences_notin e l : e ∉ l -> occurrences e l = 0.
Proof. rewrite list_elem_of_In. apply count_occ_not_In. Qed.

Lemma occurrences_NoDup e l : NoDup l -> e ∈ l -> occurrences e l = 1.
Proof.
  induction 1 as [|x l Hx Hl IH]; [by rewrite elem_of_nil|].
  rewrite elem_of_cons, occurrences_cons. intros [->|He].
  - rewrite decide_True by done. by rewrite occurrences_notin.
  - rewrite decide_False by (intros ->; done). by rewrite IH.
Qed.

Section Count.
Variable d : Document.

Lemma scan_shapes_count_picture x shapes : forall wl out,
  shape_type (proxy d x) = PICTURE ->
  occurrences x (fst (scan_shapes d shapes wl out)) =
  occurrences x wl +
  (if decide (linked_picture d x) then occurrences x shapes else 0).
Proof.
  induction shapes as [|s rest IH]; intros wl out Hty.
  - simpl. case_decide; unfold occurrences; simpl; lia.
  - rewrite scan_shapes_cons, IH, scan_shape_cases by done.
    rewrite (occurrences_cons x s rest).
    destruct (decide (s = x)) as [->|Hne].
    + destruct (decide (linked_picture d x)) as [Hx|Hx].
      * rewrite occurrences_app, occurrences_singleton, decide_True by done. lia.
      * rewrite decide_False; [lia|]. intros [Hg _]. congruence.
    + assert (occurrences x (wl ++ [s]) = occurrences x wl) as Happ.
      { rewrite occurrences_app, occurrences_singleton, decide_False by done. lia. }
      repeat case_decide; rewrite ?Happ; lia.
Qed.

Lemma scan_shapes_count_group x shapes : forall wl out,
  shape_type (proxy d x) = GROUP ->
  occurrences x (fst (scan_shapes d shapes wl out)) =
  if decide (x ∈ wl) then occurrences x wl
  else if decide (x ∈ shapes /\ linked_group d x) then 1 else 0.
Proof.
  induction shapes as [|s rest IH]; intros wl out Hty.
  - cbn [scan_shapes fst]. destruct (decide (x ∈ wl)) as [Hin|Hin]; [done|].
    rewrite decide_False by (rewrite elem_of_nil; tauto).
    by apply occurrences_notin.
  - rewrite scan_shapes_cons, IH, scan_shape_cases by done.
    assert (~ linked_picture d x) as Hnp by (intros [? _]; congruence).
    destruct (decide (s = x)) as [->|Hne].
    + destruct (decide (linked_picture d x)) as [?|_]; [done|].
      destruct (decide (linked_group d x)) as [Hg|Hg].
      * destruct (decide (x ∈ wl)) as [Hin|Hin]; [by rewrite decide_True|].
        rewrite (decide_True (P := x ∈ wl ++ [x]))
          by (rewrite elem_of_app, list_elem_of_singleton; tauto).
        rewrite occurrences_app, occurrences_singleton, decide_True by done.
        rewrite occurrences_notin by done.
        rewrite decide_True; [done|]. split; [left|done].
      * destruct (decide (x ∈ wl)) as [Hin|Hin]; [done|].
        rewrite !decide_False; tauto.
    + assert (occurrences x (wl ++ [s]) = occurrences x wl) as Happ.
      { rewrite occurrences_app, occurrences_singleton, decide_False by done. lia. }
      assert (x ∈ wl ++ [s] <-> x ∈ wl) as Hmem.
      { rewrite elem_of_app, list_elem_of_singleton. intuition congruence. }
      assert (x ∈ s :: rest /\ linked_group d x <-> x ∈ rest /\ linked_group d x)
        as Hcons.
      { rewrite elem_of_cons. intuition congruence. }
      repeat case_decide; rewrite ?Happ; tauto || done.
Qed.

(** The worklist does not depend on what was printed before. *)
Lemma scan_shapes_fst_out shapes : forall wl out out',
  fst (scan_shapes d shapes wl out) = fst (scan_shapes d shapes wl out').
Proof.
  induction shapes as [|s rest IH]; intros wl out out'; [done|].
  rewrite !scan_shapes_cons.
  rewrite (scan_shape_cases d s wl out), (scan_shape_cases d s wl out').
  apply IH.
Qed.

Lemma scan_sub_shapes_snd shape subs wl out :
  exists found, snd (scan_sub_shapes d shape subs wl out) = out ++ found.
Proof.
  induction subs as [|c subs IH]; simpl.
  - exists []. by rewrite app_nil_r.
  - destruct (decide (shape_type (proxy d c) = PICTURE)); [|done].
    destruct (truthy_address (proxy d c)) as [a|]; [|done].
    case_decide; by eexists.
Qed.

Lemma scan_shape_snd shape wl out :
  exists found, snd (scan_shape d shape wl out) = out ++ found.
Proof.
  unfold scan_shape.
  case_decide.
  - destruct (truthy_address (proxy d shape)); [by eexists|].
    exists []. by rewrite app_nil_r.
  - case_decide; [apply scan_sub_shapes_snd|].
    exists []. by rewrite app_nil_r.
Qed.

Lemma scan_shapes_snd shapes : forall wl out,
  exists found, snd (scan_shapes d shapes wl out) = out ++ found.
Proof.
  induction shapes as [|s rest IH]; intros wl out.
  - exists []. by rewrite app_nil_r.
  - simpl. destruct (scan_shape_snd s wl out) as [f1 Hf1].
    destruct (scan_shape d s wl out) as [wl1 out1]. simpl in Hf1. subst out1.
    destruct (IH wl1 (out ++ f1)) as [f2 Hf2].
    exists (f1 ++ f2). by rewrite Hf2, app_assoc.
Qed.
End Count.

(** ** The removal loop *)

Lemma detach_None d e :
  parent d !! e = None ->
  detach d e = inl (AttributeError "'NoneType' object has no attribute 'remove'").
Proof. unfold detach. by intros ->. Qed.

Lemma detach_Some d e p :
  parent d !! e = Some p ->
  detach d e = inr (mkDocument (proxy d) (order d) (delete e (parent d))).
Proof. unfold detach. by intros ->. Qed.

Lemma remove_shapes_proxy wl : forall d out,
  proxy (fst (remove_shapes wl d out)) = proxy d.
Proof.
  induction wl as [|x wl IH]; intros d out; simpl; [done|].
  unfold detach. destruct (parent d !! x); by rewrite IH.
Qed.

Lemma remove_shapes_order wl : forall d out,
  order (fst (remove_shapes wl d out)) = order d.
Proof.
  induction wl as [|x wl IH]; intros d out; simpl; [done|].
  unfold detach. destruct (parent d !! x); by rewrite IH.
Qed.

(** After the loop the shapes of the worklist have no parent, and the
    parent of every other element is what it was. *)
Lemma remove_shapes_parent wl : forall d out e,
  parent (fst (remove_shapes wl d out)) !! e =
  if decide (e ∈ wl) then None else parent d !! e.
Proof.
  induction wl as [|x wl IH]; intros d out e; cbn [remove_shapes].
  - rewrite decide_False; [done|]. apply not_elem_of_nil.
  - unfold detach. destruct (parent d !! x) as [p|] eqn:Hp; rewrite IH;
      cbn [parent].
    + destruct (decide (e ∈ wl)) as [Hin|Hin].
      * by rewrite decide_True by (by right).
      * destruct (decide (e = x)) as [->|Hne].
        -- rewrite decide_True by (by left). apply lookup_delete_eq.
        -- rewrite decide_False by (rewrite elem_of_cons; tauto).
           by apply lookup_delete_ne.
    + destruct (decide (e ∈ wl)) as [Hin|Hin].
      * by rewrite decide_True by (by right).
      * destruct (decide (e = x)) as [->|Hne].
        -- by rewrite decide_True by (by left).
        -- by rewrite decide_False by (rewrite elem_of_cons; tauto).
Qed.

Lemma remove_shapes_doc_out wl : forall d out out',
  fst (remove_shapes wl d out) = fst (remove_shapes wl d out').
Proof.
  induction wl as [|x wl IH]; intros d out out'; simpl; [done|].
  destruct (detach d x); apply IH.
Qed.

(** ** The function as a whole *)

Section Run.
Variables (d : Document) (shapes_collection : nat).

Lemma scan_worklist out :
  fst (scan_shapes d (iter_shapes d shapes_collection) [] out) =
  worklist d shapes_collection.
Proof. apply scan_shapes_fst_out. Qed.

(** The function unfolded on the worklist. *)
Lemma run_unfold out :
  remove_hyperlinked_pictures_from_shapes shapes_collection d out =
  let wl := worklist d shapes_collection in
  let out1 := snd (scan_shapes d (iter_shapes d shapes_collection) [] out) in
  match wl with
  | _ :: _ =>
      let out2 := out1 ++ ["Attempting to remove " +:+ pretty (length wl) +:+
                           " shapes..."] in
      (VNone, fst (remove_shapes wl d out2), snd (remove_shapes wl d out2))
  | [] => (VNone, d, out1 ++ ["No hyperlinked pictures found in this collection."])
  end.
Proof.
  unfold remove_hyperlinked_pictures_from_shapes.
  rewrite <- (scan_worklist out).
  destruct (scan_shapes d (iter_shapes d shapes_collection) [] out)
    as [wl out1]; cbn [fst snd].
  destruct wl as [|x wl]; [done|].
  by destruct (remove_shapes (x :: wl) d _).
Qed.

Lemma run_doc out :
  snd (fst (remove_hyperlinked_pictures_from_shapes shapes_collection d out)) =
  doc_after shapes_collection d.
Proof.
  unfold doc_after. rewrite !run_unfold. cbv zeta.
  destruct (worklist d shapes_collection); [done|]. cbn [fst snd].
  apply remove_shapes_doc_out.
Qed.

Lemma doc_after_proxy : proxy (doc_after shapes_collection d) = proxy d.
Proof.
  unfold doc_after. rewrite run_unfold. cbv zeta.
  destruct (worklist d shapes_collection); [done|]. cbn [fst snd].
  apply remove_shapes_proxy.
Qed.

Lemma doc_after_order : order (doc_after shapes_collection d) = order d.
Proof.
  unfold doc_after. rewrite run_unfold. cbv zeta.
  destruct (worklist d shapes_collection); [done|]. cbn [fst snd].
  apply remove_shapes_order.
Qed.

Lemma doc_after_parent e :
  parent (doc_after shapes_collection d) !! e =
  if decide (e ∈ worklist d shapes_collection) then None else parent d !! e.
Proof.
  unfold doc_after. rewrite run_unfold. cbv zeta.
  destruct (worklist d shapes_collection) as [|x wl] eqn:Hwl; cbn [fst snd].
  - rewrite decide_False; [done|]. apply not_elem_of_nil.
  - apply remove_shapes_parent.
Qed.

(** The shapes a collection yields afterwards: those it yielded before
    that are not in the worklist. *)
Lemma doc_after_iter_shapes collection e :
  e ∈ iter_shapes (doc_after shapes_collection d) collection <->
  e ∈ iter_shapes d collection /\ e ∉ worklist d shapes_collection.
Proof.
  unfold iter_shapes. rewrite !list_elem_of_filter.
  rewrite doc_after_parent, doc_after_order.
  case_decide; intuition congruence.
Qed.

Lemma worklist_elem x :
  x ∈ worklist d shapes_collection <->
  x ∈ iter_shapes d shapes_collection /\
  (linked_picture d x \/ linked_group d x).
Proof.
  unfold worklist. rewrite scan_shapes_elem, elem_of_nil. tauto.
Qed.
End Run.

(** In a goal about a run, names the document it leaves [doc_after]. *)
Ltac name_run d sc out :=
  let H := fresh "Hdoc" in
  let v := fresh "v" in
  let d' := fresh "d'" in
  let out' := fresh "out'" in
  pose proof (run_doc d sc out) as H;
  destruct (remove_hyperlinked_pictures_from_shapes sc d out) as [[v d'] out'];
  cbn [fst snd] in H; subst d'.

Lemma iter_shapes_NoDup d collection :
  NoDup (order d) -> NoDup (iter_shapes d collection).
Proof. apply NoDup_filter. Qed.

Lemma iter_shapes_parent d collection e :
  e ∈ iter_shapes d collection -> parent d !! e = Some collection.
Proof. unfold iter_shapes. rewrite list_elem_of_filter. tauto. Qed.

Example scenarioA_run :
  remove_hyperlinked_pictures_from_shapes 0 scenarioA [] =
  (VNone,
   mkDocument (proxy scenarioA) [0; 1; 2] (delete 1 (parent scenarioA)),
   ["Found picture with hyperlink: http://x on shape 'Logo'";
    "Attempting to remove 1 shapes...";
    "Successfully removed shape."]).
Proof. vm_compute. reflexivity. Qed.


Example sample_worklist : worklist sample 0 = [1; 5; 12].
Proof. vm_compute. reflexivity. Qed.

Example sample_output :
  snd (remove_hyperlinked_pictures_from_shapes 0 sample []) =
  ["Found picture with hyperlink: http://x on shape 'Logo'";
   "Found picture with hyperlink within group 'Badge': http://y";
   "Found picture with hyperlink: http://w on shape 'Unnamed Picture'";
   "Attempting to remove 3 shapes...";
   "Successfully removed shape.";
   "Successfully removed shape.";
   "Successfully removed shape."].
Proof. vm_compute. reflexivity. Qed.

Example sample_after :
  iter_shapes (doc_after 0 sample) 0 = [2; 3; 4; 9; 13].
Proof. vm_compute. reflexivity. Qed.

Example scenarioB_run :
  remove_hyperlinked_pictures_from_shapes 0 scenarioB [] =
  (VNone, scenarioB, ["No hyperlinked pictures found in this collection."]).
Proof. vm_compute. reflexivity. Qed.

Example scenarioC_run :
  remove_hyperlinked_pictures_from_shapes 0 scenarioC [] =
  (VNone,
   mkDocument (proxy scenarioC) [0; 1; 2; 3] (delete 1 (parent scenarioC)),
   ["Found picture with hyperlink within group 'Stamp': http://y";
    "Attempting to remove 1 shapes...";
    "Successfully removed shape."]).
Proof. vm_compute. reflexivity. Qed.

Example scenarioC_group_intact :
  iter_shapes (doc_after 0 scenarioC) 0 = [] /\
  iter_shapes (doc_after 0 scenarioC) 1 = [2; 3].
Proof. vm_compute. split; reflexivity. Qed.

Example empty_collection_run :
  iter_shapes plain 2 = [] /\
  remove_hyperlinked_pictures_from_shapes 2 plain [] =
  (VNone, plain, ["No hyperlinked pictures found in this collection."]).
Proof. vm_compute. split; reflexivity. Qed.

Example scenarioD_run :
  process_presentation empty_env "deck.pptx" (start ["O"]) =
  (inr VNone,
   mkState ["Processing presentation: deck.pptx";
            "No slide masters found in the presentation.";
            choice_prompt;
            "Presentation saved to: deck.pptx"]
           []
           [("deck.pptx", scenarioA)]).
Proof. vm_compute. reflexivity. Qed.

Example end_of_input_exits_one :
  exit_status (fst (main sample_env "deck.pptx" (start ["S"]))) = 1%Z.
Proof. vm_compute. reflexivity. Qed.

Example strip_upper_examples :
  ascii_upper (ascii_strip "  o ") = "O" /\
  ascii_upper (ascii_strip " s ") = "S" /\
  ascii_upper (ascii_strip "yes") = "YES" /\ ascii_strip "   " = "" /\
  endswith (lower "Deck.PPTX") ".pptx" = true /\
  endswith (lower "deck.ppt") ".pptx" = false.
Proof. vm_compute. repeat split; reflexivity. Qed.

Example sample_second_run :
  remove_hyperlinked_pictures_from_shapes 0 (doc_after 0 sample) [] =
  (VNone, doc_after 0 sample,
   ["No hyperlinked pictures found in this collection."]).
Proof. vm_compute. reflexivity. Qed.

(** A worklist with the same shape twice: the second detachment fails and
    the loop goes on. *)
Example twice_in_worklist :
  snd (remove_shapes [1; 1; 12] sample []) =
  ["Successfully removed shape.";
   "Could not remove shape: 'NoneType' object has no attribute 'remove'";
   "Successfully removed shape."].
Proof. vm_compute. reflexivity. Qed.

(** ** Pictures *)

(** C1.  In a collection whose elements are distinct, a picture with a
    non-empty hyperlink address is in the worklist exactly once.  A picture
    whose click action, hyperlink or address is missing, or whose address
    is empty, is not in the worklist and is still a shape of the collection,
    under the same parent, when the function returns. *)
Theorem picture_listed_once_or_kept
    (d : Document) (shapes_collection shape : nat) (out : list string) :
  NoDup (order d) ->
  shape ∈ iter_shapes d shapes_collection ->
  shape_type (proxy d shape) = PICTURE ->
  (has_hyperlink (proxy d shape) ->
   occurrences shape (worklist d shapes_collection) = 1) /\
  (no_hyperlink (proxy d shape) ->
   (shape ∉ worklist d shapes_collection) /\
   (let '(_, d', _) :=
      remove_hyperlinked_pictures_from_shapes shapes_collection d out in
    shape ∈ iter_shapes d' shapes_collection /\
    parent d' !! shape = parent d !! shape)).
Proof.
  intros Hnd Hin Hty. split.
  - intros Hh. unfold worklist.
    rewrite scan_shapes_count_picture by done.
    rewrite decide_True by (by split).
    rewrite (occurrences_NoDup shape (iter_shapes d shapes_collection));
      [done| |done].
    by apply iter_shapes_NoDup.
  - intros Hno.
    assert (shape ∉ worklist d shapes_collection) as Hnot.
    { rewrite worklist_elem. intros [_ [[_ Hh]|[Hg _]]].
      - by apply no_hyperlink_not_has in Hno.
      - congruence. }
    split; [done|].
    name_run d shapes_collection out.
    split.
    + by apply doc_after_iter_shapes.
    + rewrite doc_after_parent. by rewrite decide_False.
Qed.

Lemma picture_listed_once_or_kept_witness :
  (NoDup (order sample) /\ 1 ∈ iter_shapes sample 0 /\
   shape_type (proxy sample 1) = PICTURE /\ has_hyperlink (proxy sample 1) /\
   occurrences 1 (worklist sample 0) = 1) /\
  (3 ∈ iter_shapes sample 0 /\ shape_type (proxy sample 3) = PICTURE /\
   no_hyperlink (proxy sample 3) /\ (3 ∉ worklist sample 0) /\
   3 ∈ iter_shapes (doc_after 0 sample) 0 /\
   parent (doc_after 0 sample) !! 3 = parent sample !! 3).
Proof.
  assert (NoDup (order sample)) as Hnd by (decide_by_compute).
  assert (1 ∈ iter_shapes sample 0) as H1 by (decide_by_compute).
  assert (3 ∈ iter_shapes sample 0) as H3 by (decide_by_compute).
  assert (has_hyperlink (proxy sample 1)) as Hh1
    by (exists "http://x"; split; [reflexivity|discriminate]).
  assert (no_hyperlink (proxy sample 3)) as Hh3 by (right; reflexivity).
  split.
  - split; [exact Hnd|]. split; [exact H1|]. split; [reflexivity|].
    split; [exact Hh1|].
    exact (proj1 (picture_listed_once_or_kept sample 0 1 [] Hnd H1 eq_refl) Hh1).
  - destruct (proj2 (picture_listed_once_or_kept sample 0 3 [] Hnd H3 eq_refl) Hh3)
      as [Hnot Hrun].
    split; [exact H3|]. split; [reflexivity|]. split; [exact Hh3|].
    split; [exact Hnot|].
    unfold doc_after.
    destruct (remove_hyperlinked_pictures_from_shapes 0 sample [])
      as [[v d'] out']. exact Hrun.
Defined.

(** ** Groups *)

Lemma worklist_parent d shapes_collection x :
  x ∈ worklist d shapes_collection -> parent d !! x = Some shapes_collection.
Proof. rewrite worklist_elem. intros [Hx _]. by apply iter_shapes_parent in Hx. Qed.

(** A collection that is not among its own shapes keeps the children of
    its groups when the function runs. *)
Lemma doc_after_children d shapes_collection group :
  group <> shapes_collection ->
  iter_shapes (doc_after shapes_collection d) group = iter_shapes d group.
Proof.
  intros Hne. unfold iter_shapes. rewrite doc_after_order.
  apply list_filter_iff. intros e. rewrite doc_after_parent.
  case_decide as Hin; [|done].
  apply worklist_parent in Hin. rewrite Hin. split; [done|]. congruence.
Qed.

(** C2.  A group of the collection with a linked picture among its
    immediate children is in the worklist exactly once, however many of its
    children are linked; none of its children is
    in the worklist; when the function returns the group has no parent and
    still holds all its children.  The inner loop stops at the first linked
    picture: whatever follows it in the group, the loop appends the group
    (if it is not yet listed) and prints one line, for that picture. *)
Theorem group_listed_once
    (d : Document) (shapes_collection group child : nat) (out : list string) :
  shapes_collection ∉ iter_shapes d shapes_collection ->
  group ∈ iter_shapes d shapes_collection ->
  shape_type (proxy d group) = GROUP ->
  child ∈ iter_shapes d group ->
  linked_picture d child ->
  occurrences group (worklist d shapes_collection) = 1 /\
  Forall (fun c => c ∉ worklist d shapes_collection) (iter_shapes d group) /\
  (let '(_, d', _) :=
     remove_hyperlinked_pictures_from_shapes shapes_collection d out in
   parent d' !! group = None /\
   (group ∉ iter_shapes d' shapes_collection) /\
   iter_shapes d' group = iter_shapes d group) /\
  exists pre first a post,
    iter_shapes d group = pre ++ first :: post /\
    Forall (fun c => ~ linked_picture d c) pre /\
    linked_picture d first /\
    hyperlink_address (proxy d first) = Some a /\
    forall rest wl out0,
      scan_sub_shapes d group (pre ++ first :: rest) wl out0 =
      (if decide (group ∈ wl) then wl else wl ++ [group],
       out0 ++ [found_in_group_line (proxy d group) a]).
Proof.
  intros Hself Hin Hty Hchild Hlinked.
  assert (group <> shapes_collection) as Hne by (intros ->; done).
  assert (linked_group d group) as Hg.
  { split; [done|]. apply Exists_exists. eauto. }
  assert (group ∈ worklist d shapes_collection) as Hwl.
  { apply worklist_elem. split; [done|by right]. }
  split; [|split; [|split]].
  - unfold worklist. rewrite scan_shapes_count_group by done.
    rewrite decide_False by apply not_elem_of_nil.
    by rewrite decide_True.
  - apply Forall_forall. intros c Hc Hcwl.
    apply worklist_parent in Hcwl. apply iter_shapes_parent in Hc. congruence.
  - name_run d shapes_collection out.
    split; [|split].
    + rewrite doc_after_parent. by rewrite decide_True.
    + rewrite doc_after_iter_shapes. tauto.
    + by apply doc_after_children.
  - destruct Hg as [_ HE].
    destruct (first_match _ _ HE) as (pre & first & post & Heq & Hpre & Hfirst).
    destruct Hfirst as [Hfty Hfh].
    destruct (proj1 (has_hyperlink_truthy _) Hfh) as [a Ha].
    exists pre, first, a, post. split; [done|]. split; [done|].
    split; [by split|]. split; [by apply truthy_address_Some in Ha as [? _]|].
    intros rest wl out0. by apply scan_sub_shapes_first.
Qed.

Lemma group_listed_once_witness :
  (0 ∉ iter_shapes sample 0) /\ 5 ∈ iter_shapes sample 0 /\
  shape_type (proxy sample 5) = GROUP /\ 8 ∈ iter_shapes sample 5 /\
  linked_picture sample 8 /\
  occurrences 5 (worklist sample 0) = 1 /\
  Forall (fun c => c ∉ worklist sample 0) (iter_shapes sample 5) /\
  parent (doc_after 0 sample) !! 5 = None.
Proof.
  assert (0 ∉ iter_shapes sample 0) as H0 by decide_by_compute.
  assert (5 ∈ iter_shapes sample 0) as H5 by decide_by_compute.
  assert (8 ∈ iter_shapes sample 5) as H8 by decide_by_compute.
  assert (linked_picture sample 8) as Hl.
  { split; [reflexivity|]. exists "http://z". split; [reflexivity|discriminate]. }
  destruct (group_listed_once sample 0 5 8 [] H0 H5 eq_refl H8 Hl)
    as (Honce & Hchildren & Hrun & _).
  split; [exact H0|]. split; [exact H5|]. split; [reflexivity|].
  split; [exact H8|]. split; [exact Hl|]. split; [exact Honce|].
  split; [exact Hchildren|].
  unfold doc_after.
  destruct (remove_hyperlinked_pictures_from_shapes 0 sample [])
    as [[v d'] out']. exact (proj1 Hrun).
Defined.

(** C3.  A group of the collection none of whose immediate children is a
    linked picture is not in the worklist and keeps its place and its parent,
    whatever lies deeper.  The worklist is a function of the shapes of the
    collection and of the immediate children of its groups: a document that
    differs only further down has the same worklist. *)
Theorem group_without_linked_child_kept
    (d : Document) (shapes_collection group : nat) (out : list string) :
  group ∈ iter_shapes d shapes_collection ->
  shape_type (proxy d group) = GROUP ->
  Forall (fun c => ~ linked_picture d c) (iter_shapes d group) ->
  (group ∉ worklist d shapes_collection) /\
  (let '(_, d', _) :=
     remove_hyperlinked_pictures_from_shapes shapes_collection d out in
   group ∈ iter_shapes d' shapes_collection /\
   parent d' !! group = parent d !! group) /\
  forall d2 : Document,
    iter_shapes d2 shapes_collection = iter_shapes d shapes_collection ->
    (forall s, s ∈ iter_shapes d shapes_collection ->
       proxy d2 s = proxy d s /\
       iter_shapes d2 s = iter_shapes d s /\
       forall c, c ∈ iter_shapes d s -> proxy d2 c = proxy d c) ->
    worklist d2 shapes_collection = worklist d shapes_collection.
Proof.
  intros Hin Hty Hnone.
  assert (group ∉ worklist d shapes_collection) as Hnot.
  { rewrite worklist_elem. intros [_ [[Hp _]|[_ HE]]]; [congruence|].
    apply Exists_exists in HE as (c & Hc & Hl).
    rewrite Forall_forall in Hnone. by apply (Hnone c). }
  split; [done|]. split.
  - name_run d shapes_collection out.
    split.
    + by apply doc_after_iter_shapes.
    + rewrite doc_after_parent. by rewrite decide_False.
  - intros d2 Hshapes Hsame. unfold worklist. rewrite Hshapes.
    assert (forall shapes wl,
      (forall s, s ∈ shapes -> s ∈ iter_shapes d shapes_collection) ->
      fst (scan_shapes d2 shapes wl []) = fst (scan_shapes d shapes wl [])) as Hgen.
    { induction shapes as [|s rest IH]; intros wl Hsub; [done|].
      rewrite !scan_shapes_cons.
      rewrite (scan_shapes_fst_out d2 rest _ _ []).
      rewrite (scan_shapes_fst_out d rest _ _ []).
      rewrite !scan_shape_cases.
      destruct (Hsame s) as (Hps & Hcs & Hpc); [apply Hsub; by left|].
      assert (linked_picture d2 s <-> linked_picture d s) as Hlp.
      { unfold linked_picture. by rewrite Hps. }
      assert (linked_group d2 s <-> linked_group d s) as Hlg.
      { unfold linked_group. rewrite Hps, Hcs, !Exists_exists.
        split; intros [Hg (c & Hc & Hl)]; (split; [done|]); exists c;
          (split; [done|]); unfold linked_picture in *;
          [rewrite <- (Hpc c Hc)|rewrite (Hpc c Hc)]; done. }
      rewrite (decide_ext _ _ _ _ Hlp), (decide_ext _ _ _ _ Hlg).
      apply IH. intros s' Hs'. apply Hsub. by right. }
    by apply Hgen.
Qed.

Lemma group_without_linked_child_kept_witness :
  9 ∈ iter_shapes sample 0 /\ shape_type (proxy sample 9) = GROUP /\
  Forall (fun c => ~ linked_picture sample c) (iter_shapes sample 9) /\
  (10 ∈ iter_shapes sample 9 /\ 11 ∈ iter_shapes sample 10 /\
   linked_picture sample 11) /\
  (9 ∉ worklist sample 0) /\ 9 ∈ iter_shapes (doc_after 0 sample) 0.
Proof.
  assert (9 ∈ iter_shapes sample 0) as H9 by decide_by_compute.
  assert (Forall (fun c => ~ linked_picture sample c) (iter_shapes sample 9))
    as Hnone by decide_by_compute.
  destruct (group_without_linked_child_kept sample 0 9 [] H9 eq_refl Hnone)
    as (Hnot & Hrun & _).
  split; [exact H9|]. split; [reflexivity|]. split; [exact Hnone|].
  split; [repeat split; decide_by_compute|]. split; [exact Hnot|].
  unfold doc_after.
  destruct (remove_hyperlinked_pictures_from_shapes 0 sample [])
    as [[v d'] out']. exact (proj1 Hrun).
Defined.

(** ** Collections with nothing to remove *)

Lemma scan_shapes_skip_all d shapes : forall wl out,
  Forall (fun s => ~ linked_picture d s /\ ~ linked_group d s) shapes ->
  scan_shapes d shapes wl out = (wl, out).
Proof.
  induction shapes as [|s rest IH]; intros wl out Hall; [done|].
  inversion Hall as [|? ? [Hp Hg] Hrest]; subst.
  simpl. rewrite scan_shape_skip by done. by apply IH.
Qed.

Lemma run_nothing_listed d shapes_collection out :
  worklist d shapes_collection = [] ->
  remove_hyperlinked_pictures_from_shapes shapes_collection d out =
  (VNone, d, out ++ ["No hyperlinked pictures found in this collection."]).
Proof.
  intros Hwl. rewrite run_unfold, Hwl. cbv zeta.
  rewrite scan_shapes_skip_all; [done|].
  apply Forall_forall. intros s Hs.
  assert (s ∉ worklist d shapes_collection) as Hnot
    by (rewrite Hwl; apply not_elem_of_nil).
  rewrite worklist_elem in Hnot. tauto.
Qed.

(** C7.  Only pictures and groups are ever in the worklist.  For a
    collection without pictures and groups, the empty one included, the
    worklist is empty, the document is returned as it was, and the only
    line printed says that nothing was found. *)
Theorem other_shapes_ignored
    (d : Document) (shapes_collection : nat) (out : list string) :
  (forall s, s ∈ worklist d shapes_collection ->
     shape_type (proxy d s) = PICTURE \/ shape_type (proxy d s) = GROUP) /\
  (Forall (fun s => shape_type (proxy d s) <> PICTURE /\
                    shape_type (proxy d s) <> GROUP)
          (iter_shapes d shapes_collection) ->
   worklist d shapes_collection = [] /\
   remove_hyperlinked_pictures_from_shapes shapes_collection d out =
   (VNone, d, out ++ ["No hyperlinked pictures found in this collection."])).
Proof.
  assert (forall s, s ∈ worklist d shapes_collection ->
     shape_type (proxy d s) = PICTURE \/ shape_type (proxy d s) = GROUP) as Hkind.
  { intros s Hs. apply worklist_elem in Hs as [_ [[Hp _]|[Hg _]]]; tauto. }
  split; [done|]. intros Hother.
  assert (worklist d shapes_collection = []) as Hwl.
  { apply elem_of_nil_inv. intros s Hs.
    pose proof (Hkind s Hs) as Hk.
    apply worklist_elem in Hs as [Hs _].
    rewrite Forall_forall in Hother. destruct (Hother s Hs). tauto. }
  split; [done|]. by apply run_nothing_listed.
Qed.

Lemma other_shapes_ignored_witness :
  Forall (fun s => shape_type (proxy plain s) <> PICTURE /\
                   shape_type (proxy plain s) <> GROUP)
         (iter_shapes plain 0) /\
  iter_shapes plain 0 = [1; 2; 3] /\
  worklist plain 0 = [] /\
  remove_hyperlinked_pictures_from_shapes 0 plain [] =
  (VNone, plain, ["No hyperlinked pictures found in this collection."]).
Proof.
  assert (Forall (fun s => shape_type (proxy plain s) <> PICTURE /\
                           shape_type (proxy plain s) <> GROUP)
                 (iter_shapes plain 0)) as Hother by decide_by_compute.
  split; [exact Hother|]. split; [vm_compute; reflexivity|].
  exact (proj2 (other_shapes_ignored plain 0 []) Hother).
Defined.

(** ** Running the function twice *)

Lemma doc_after_linked_picture d shapes_collection x :
  linked_picture (doc_after shapes_collection d) x <-> linked_picture d x.
Proof. unfold linked_picture. by rewrite doc_after_proxy. Qed.

Lemma doc_after_linked_group d shapes_collection x :
  linked_group (doc_after shapes_collection d) x -> linked_group d x.
Proof.
  unfold linked_group. rewrite doc_after_proxy, !Exists_exists.
  intros [Hty (c & Hc & Hl)]. split; [done|]. exists c.
  apply doc_after_iter_shapes in Hc as [Hc _].
  by apply doc_after_linked_picture in Hl.
Qed.

(** C6.  After one run the worklist of the same collection is empty: a
    second run detaches nothing, returns the document as it is and prints
    only that nothing was found.  This holds whether or not every detachment
    of the first run succeeded. *)
Theorem second_run_removes_nothing
    (d : Document) (shapes_collection : nat) (out : list string) :
  let '(_, d1, out1) :=
    remove_hyperlinked_pictures_from_shapes shapes_collection d out in
  worklist d1 shapes_collection = [] /\
  remove_hyperlinked_pictures_from_shapes shapes_collection d1 out1 =
  (VNone, d1, out1 ++ ["No hyperlinked pictures found in this collection."]).
Proof.
  name_run d shapes_collection out.
  assert (worklist (doc_after shapes_collection d) shapes_collection = []) as Hwl.
  { apply elem_of_nil_inv. intros x Hx.
    apply worklist_elem in Hx as [Hx Hlinked].
    apply doc_after_iter_shapes in Hx as [Hx Hnot].
    apply Hnot, worklist_elem. split; [done|].
    destruct Hlinked as [Hp|Hg].
    - left. by apply doc_after_linked_picture in Hp.
    - right. by apply doc_after_linked_group in Hg. }
  split; [done|]. by apply run_nothing_listed.
Qed.

(** ** Detachment failures *)

Lemma remove_shapes_app l1 l2 : forall d out,
  remove_shapes (l1 ++ l2) d out =
  remove_shapes l2 (fst (remove_shapes l1 d out)) (snd (remove_shapes l1 d out)).
Proof.
  induction l1 as [|x l1 IH]; intros d out; simpl; [done|].
  destruct (detach d x); apply IH.
Qed.

Lemma removed_line_not_failed e : failed_line e <> removed_line.
Proof. unfold failed_line, removed_line. simpl. discriminate. Qed.

(** What the loop prints and how many shapes it detaches. *)
Lemma remove_shapes_results wl : forall d out,
  exists results,
    snd (remove_shapes wl d out) = out ++ results /\
    length results = length wl /\
    Forall (fun l => l = removed_line \/ exists e, l = failed_line e) results /\
    length (filter (fun l => l = removed_line) results) +
      size (parent (fst (remove_shapes wl d out))) = size (parent d).
Proof.
  induction wl as [|x wl IH]; intros d out.
  - exists []. simpl. by rewrite app_nil_r.
  - cbn [remove_shapes]. unfold detach.
    change "Successfully removed shape." with removed_line.
    destruct (parent d !! x) as [p|] eqn:Hp.
    + destruct (IH (mkDocument (proxy d) (order d) (delete x (parent d)))
                   (out ++ [removed_line])) as (results & Hout & Hlen & Hall & Hsize).
      exists (removed_line :: results).
      split; [by rewrite Hout, <- app_assoc|]. split; [simpl; lia|].
      split; [constructor; [by left|done]|].
      rewrite filter_cons_True by done. cbn [parent length] in *.
      rewrite map_size_delete, Hp in Hsize.
      assert (size (parent d) <> 0) by (by apply (map_size_ne_0_lookup_2 _ x)).
      simpl in Hsize. lia.
    + change ("Could not remove shape: " +:+ str ?e) with (failed_line e).
      destruct (IH d (out ++ [failed_line
                  (AttributeError "'NoneType' object has no attribute 'remove'")]))
        as (results & Hout & Hlen & Hall & Hsize).
      eexists (failed_line _ :: results).
      split; [by rewrite Hout, <- app_assoc|]. split; [simpl; lia|].
      split; [constructor; [right; by eexists|done]|].
      rewrite filter_cons_False by apply removed_line_not_failed. done.
Qed.

(** C5.  When a shape of the worklist has no parent at its turn, the
    exception is caught and printed for that shape and the loop goes on with
    the shapes after it, on the same document.  The loop always returns: it
    prints one line per shape of the worklist, and afterwards no shape of
    the worklist has a parent, while every other element keeps its own. *)
Theorem failure_does_not_stop_removal
    (before after : list nat) (shape : nat)
    (d d1 : Document) (out out1 : list string) :
  remove_shapes before d out = (d1, out1) ->
  parent d1 !! shape = None ->
  exists e,
    detach d1 shape = inl e /\
    remove_shapes (before ++ shape :: after) d out =
    remove_shapes after d1 (out1 ++ ["Could not remove shape: " +:+ str e]) /\
    (let '(d2, out2) := remove_shapes (before ++ shape :: after) d out in
     length out2 = length out + length (before ++ shape :: after) /\
     Forall (fun x => parent d2 !! x = None) (before ++ shape :: after) /\
     forall x, x ∉ before ++ shape :: after -> parent d2 !! x = parent d !! x).
Proof.
  intros Hbefore Hnone.
  exists (AttributeError "'NoneType' object has no attribute 'remove'").
  split; [by apply detach_None|]. split.
  - rewrite remove_shapes_app, Hbefore. cbn [fst snd remove_shapes].
    by rewrite detach_None.
  - destruct (remove_shapes_results (before ++ shape :: after) d out)
      as (results & Hout & Hlen & _).
    pose proof (remove_shapes_parent (before ++ shape :: after) d out) as Hpar.
    destruct (remove_shapes (before ++ shape :: after) d out) as [d2 out2].
    cbn [fst snd] in *. split; [|split].
    + rewrite Hout, length_app. lia.
    + apply Forall_forall. intros x Hx. rewrite Hpar. by rewrite decide_True.
    + intros x Hx. rewrite Hpar. by rewrite decide_False.
Qed.

Lemma failure_does_not_stop_removal_witness :
  remove_shapes [1; 12] sample [] =
    (mkDocument (proxy sample) (order sample)
                (delete 12 (delete 1 (parent sample))),
     ["Successfully removed shape."; "Successfully removed shape."]) /\
  remove_shapes ([1; 12] ++ 1 :: [5; 13]) sample [] =
    (mkDocument (proxy sample) (order sample)
       (delete 13 (delete 5 (delete 12 (delete 1 (parent sample))))),
     ["Successfully removed shape."; "Successfully removed shape.";
      "Could not remove shape: 'NoneType' object has no attribute 'remove'";
      "Successfully removed shape."; "Successfully removed shape."]).
Proof.
  assert (remove_shapes [1; 12] sample [] =
    (mkDocument (proxy sample) (order sample)
                (delete 12 (delete 1 (parent sample))),
     ["Successfully removed shape."; "Successfully removed shape."])) as Hbefore
    by (vm_compute; reflexivity).
  split; [exact Hbefore|].
  destruct (failure_does_not_stop_removal [1; 12] [5; 13] 1 sample _ [] _
              Hbefore eq_refl) as (e & He & Hrun & _).
  rewrite Hrun. injection He as <-. vm_compute. reflexivity.
Defined.

(** ** What the caller gets *)

(** C4, as the code has it.  The function returns [None].  The counts are
    only printed: after the lines of the scan comes either the line saying
    that nothing was found or the size of the worklist followed by one line
    per shape of the worklist, a success or a failure; the number of success
    lines is the number of elements that lost their parent. *)
Theorem counts_only_printed
    (d : Document) (shapes_collection : nat) (out : list string) :
  let '(v, d', out') :=
    remove_hyperlinked_pictures_from_shapes shapes_collection d out in
  v = VNone /\
  exists found results,
    out' = out ++ found ++
      match worklist d shapes_collection with
      | [] => ["No hyperlinked pictures found in this collection."]
      | _ :: _ =>
          ("Attempting to remove " +:+
           pretty (length (worklist d shapes_collection)) +:+ " shapes...")
          :: results
      end /\
    length results = length (worklist d shapes_collection) /\
    Forall (fun l => l = removed_line \/ exists e, l = failed_line e) results /\
    length (filter (fun l => l = removed_line) results) =
    size (parent d) - size (parent d').
Proof.
  rewrite run_unfold. cbv zeta.
  destruct (scan_shapes_snd d (iter_shapes d shapes_collection) [] out)
    as [found Hfound]. rewrite Hfound.
  destruct (worklist d shapes_collection) as [|x wl] eqn:Hwl.
  - split; [done|]. exists found, []. rewrite <- app_assoc.
    repeat split; try done. simpl. lia.
  - split; [done|].
    set (out2 := (out ++ found) ++ _).
    destruct (remove_shapes_results (x :: wl) d out2)
      as (results & Hout & Hlen & Hall & Hsize).
    exists found, results. rewrite Hout. subst out2.
    split; [by rewrite <- !app_assoc|]. split; [done|]. split; [done|]. lia.
Qed.

(** C4, counterexample.  On scenario A the function detaches one shape
    without failure, and what it returns is [None], not that count. *)
Lemma scenarioA_returns_no_count :
  let '(v, d', _) := remove_hyperlinked_pictures_from_shapes 0 scenarioA [] in
  size (parent scenarioA) - size (parent d') = 1 /\
  v = VNone /\
  ~ returns_counts v 1 0.
Proof.
  vm_compute. split; [reflexivity|]. split; [reflexivity|].
  intros [H|H]; discriminate H.
Qed.

(** ** Characters and strings *)

Ltac by_cases_on_char c :=
  destruct c as [[] [] [] [] [] [] [] []]; vm_compute; try reflexivity.

Lemma isspace_upper_char c : ascii_isspace (upper_char c) = ascii_isspace c.
Proof. by_cases_on_char c. Qed.

Lemma isspace_lower_char c : ascii_isspace (lower_char c) = ascii_isspace c.
Proof. by_cases_on_char c. Qed.

Lemma upper_char_idem c : upper_char (upper_char c) = upper_char c.
Proof. by_cases_on_char c. Qed.

Lemma upper_lower_char c : upper_char (lower_char c) = upper_char c.
Proof. by_cases_on_char c. Qed.

Lemma upper_char_O c : upper_char c = "O"%char -> c = "O"%char \/ c = "o"%char.
Proof. by_cases_on_char c; intros H; try discriminate H; tauto. Qed.

Lemma upper_char_S c : upper_char c = "S"%char -> c = "S"%char \/ c = "s"%char.
Proof. by_cases_on_char c; intros H; try discriminate H; tauto. Qed.

Lemma upper_is_O s : ascii_upper s = "O" <-> s = "O" \/ s = "o".
Proof.
  split; [|intros [->| ->]; reflexivity].
  destruct s as [|c [|c' s']]; simpl; intros H; try discriminate H.
  injection H as H. apply upper_char_O in H as [->| ->]; tauto.
Qed.

Lemma upper_is_S s : ascii_upper s = "S" <-> s = "S" \/ s = "s".
Proof.
  split; [|intros [->| ->]; reflexivity].
  destruct s as [|c [|c' s']]; simpl; intros H; try discriminate H.
  injection H as H. apply upper_char_S in H as [->| ->]; tauto.
Qed.

Lemma upper_idem s : ascii_upper (ascii_upper s) = ascii_upper s.
Proof.
  induction s as [|c s IH]; [done|]. unfold ascii_upper in *. simpl.
  by rewrite upper_char_idem, IH.
Qed.

Lemma upper_lower s : ascii_upper (lower s) = ascii_upper s.
Proof.
  induction s as [|c s IH]; [done|]. unfold ascii_upper, lower in *. simpl.
  by rewrite upper_lower_char, IH.
Qed.

Section MapChars.
Variable f : ascii -> ascii.
Hypothesis f_space : forall c, ascii_isspace (f c) = ascii_isspace c.

Lemma lstrip_map_chars s : ascii_lstrip (map_chars f s) = map_chars f (ascii_lstrip s).
Proof.
  induction s as [|c s IH]; [done|]. simpl. rewrite f_space.
  by destruct (ascii_isspace c).
Qed.

Lemma rstrip_map_chars s : ascii_rstrip (map_chars f s) = map_chars f (ascii_rstrip s).
Proof.
  induction s as [|c s IH]; [done|]. simpl. rewrite IH, f_space.
  destruct (ascii_rstrip s); [by destruct (ascii_isspace c)|done].
Qed.

Lemma strip_map_chars s : ascii_strip (map_chars f s) = map_chars f (ascii_strip s).
Proof. unfold ascii_strip. by rewrite lstrip_map_chars, rstrip_map_chars. Qed.
End MapChars.

Lemma strip_upper s : ascii_strip (ascii_upper s) = ascii_upper (ascii_strip s).
Proof. apply strip_map_chars, isspace_upper_char. Qed.

Lemma strip_lower s : ascii_strip (lower s) = lower (ascii_strip s).
Proof. apply strip_map_chars, isspace_lower_char. Qed.

Lemma lstrip_all_space s : all_space s = true -> ascii_lstrip s = "".
Proof.
  induction s as [|c s IH]; [done|]. simpl.
  destruct (ascii_isspace c); [exact IH|done].
Qed.

Lemma rstrip_all_space s : all_space s = true -> ascii_rstrip s = "".
Proof.
  induction s as [|c s IH]; [done|]. simpl.
  destruct (ascii_isspace c); [|done]. intros H. by rewrite IH.
Qed.

Lemma lstrip_space_app ws s :
  all_space ws = true -> ascii_lstrip (ws +:+ s) = ascii_lstrip s.
Proof.
  induction ws as [|c ws IH]; [done|]. simpl.
  destruct (ascii_isspace c); [exact IH|done].
Qed.

Lemma rstrip_app_space s ws :
  all_space ws = true -> ascii_rstrip (s +:+ ws) = ascii_rstrip s.
Proof.
  intros Hws. induction s as [|c s IH]; simpl.
  - by apply rstrip_all_space.
  - by rewrite IH.
Qed.

Lemma lstrip_app_space s ws :
  all_space ws = true ->
  ascii_lstrip (s +:+ ws) = if all_space s then "" else ascii_lstrip s +:+ ws.
Proof.
  intros Hws. induction s as [|c s IH]; simpl.
  - by apply lstrip_all_space.
  - destruct (ascii_isspace c); [exact IH|done].
Qed.

(** White space around a line does not change what [ascii_strip] leaves. *)
Lemma strip_padded ws1 s ws2 :
  all_space ws1 = true -> all_space ws2 = true ->
  ascii_strip (ws1 +:+ s +:+ ws2) = ascii_strip s.
Proof.
  intros H1 H2. unfold ascii_strip.
  rewrite lstrip_space_app, lstrip_app_space by done.
  destruct (all_space s) eqn:Hs.
  - by rewrite lstrip_all_space.
  - by apply rstrip_app_space.
Qed.

(** ** The prompt *)

Section Prompt.
Variables (env : Env) (input_path : string).

(** The loop looks at a line only through [line.strip().upper()]. *)
Lemma save_prompt_same_choice line1 line2 rest out :
  str_upper env (str_strip env line1) = str_upper env (str_strip env line2) ->
  save_prompt env input_path (line1 :: rest) out =
  save_prompt env input_path (line2 :: rest) out.
Proof. intros H. cbn [save_prompt]. by rewrite H. Qed.

Lemma save_prompt_O line rest out :
  str_upper env (str_strip env line) = "O" ->
  save_prompt env input_path (line :: rest) out =
  (inr ("O", input_path), rest, out ++ [choice_prompt]).
Proof. intros H. cbn [save_prompt]. rewrite H. by rewrite decide_True. Qed.

Lemma save_prompt_invalid line rest out :
  str_upper env (str_strip env line) <> "O" ->
  str_upper env (str_strip env line) <> "S" ->
  save_prompt env input_path (line :: rest) out =
  save_prompt env input_path rest (out ++ [choice_prompt; invalid_choice_error]).
Proof.
  intros HO HS. cbn [save_prompt].
  rewrite !decide_False by done. by rewrite <- app_assoc.
Qed.

Lemma save_prompt_S_same line new_name rest out :
  str_upper env (str_strip env line) = "S" ->
  os_path_abspath env
    (resolve_new_path env input_path (str_strip env new_name)) =
  os_path_abspath env input_path ->
  save_prompt env input_path (line :: new_name :: rest) out =
  save_prompt env input_path rest
    (out ++ [choice_prompt; name_prompt (default_new_path env input_path);
             same_name_error]).
Proof.
  intros HS Hsame. cbn [save_prompt]. rewrite HS.
  rewrite decide_False by done. rewrite decide_True by done.
  rewrite decide_True by done. by rewrite <- !app_assoc.
Qed.

Lemma save_prompt_S_other line new_name rest out :
  str_upper env (str_strip env line) = "S" ->
  os_path_abspath env
    (resolve_new_path env input_path (str_strip env new_name)) <>
  os_path_abspath env input_path ->
  save_prompt env input_path (line :: new_name :: rest) out =
  (inr ("S", resolve_new_path env input_path (str_strip env new_name)), rest,
   out ++ [choice_prompt; name_prompt (default_new_path env input_path)]).
Proof.
  intros HS Hother. cbn [save_prompt]. rewrite HS.
  rewrite decide_False by done. rewrite decide_True by done.
  rewrite decide_False by done. by rewrite <- !app_assoc.
Qed.

Lemma save_prompt_result n : forall lines out choice output_path lines' out',
  length lines <= n ->
  save_prompt env input_path lines out =
    (inr (choice, output_path), lines', out') ->
  prompt_result_ok env input_path choice output_path.
Proof.
  induction n as [|n IH]; intros lines out choice output_path lines' out' Hlen.
  - destruct lines; [discriminate|simpl in Hlen; lia].
  - destruct lines as [|line rest]; [discriminate|].
    simpl in Hlen. cbn [save_prompt].
    destruct (decide (str_upper env (str_strip env line) = "O")) as [HO|HO].
    { intros [= <- <- _ _]. by left. }
    destruct (decide (str_upper env (str_strip env line) = "S")) as [HS|HS].
    + destruct rest as [|new_name rest2]; [discriminate|].
      case_decide as Hsame.
      * apply IH. simpl in Hlen. lia.
      * intros [= <- <- _ _]. by right.
    + apply IH. lia.
Qed.
End Prompt.

(** ** Saving under a new name *)

(** Under the choice [S] the only file a run writes is [output_path]. *)
Lemma process_presentation_saves_output env input_path st d out choice
    output_path lines out' :
  load_and_clean env input_path (stdout st) = (Some d, out) ->
  save_prompt env input_path (stdin st) out =
    (inr (choice, output_path), lines, out') ->
  files (snd (process_presentation env input_path st)) =
  match save_raises env output_path with
  | None => files st ++ [(output_path, d)]
  | Some _ => files st
  end.
Proof.
  intros Hload Hprompt. unfold process_presentation.
  rewrite Hload, Hprompt. cbn [snd]. unfold save.
  by destruct (save_raises env output_path).
Qed.

(** C8.  Under [S], when the new name and the input path have the same
    absolute path, the loop prints the error and starts again with the
    question, on the lines that follow.  Whenever the loop ends with the
    choice [S], the absolute path of [output_path] differs from that of the
    input path, and the run of [process_presentation] whose loop ends so
    writes at most one file, to [output_path]: under [S] nothing is saved to
    the input path. *)
Theorem same_path_rejected (env : Env) (input_path : string) :
  (forall line new_name rest out,
     str_upper env (str_strip env line) = "S" ->
     os_path_abspath env
       (resolve_new_path env input_path (str_strip env new_name)) =
     os_path_abspath env input_path ->
     save_prompt env input_path (line :: new_name :: rest) out =
     save_prompt env input_path rest
       (out ++ [choice_prompt; name_prompt (default_new_path env input_path);
                same_name_error])) /\
  (forall lines out choice output_path lines' out',
     save_prompt env input_path lines out =
       (inr (choice, output_path), lines', out') ->
     choice = "S" ->
     os_path_abspath env output_path <> os_path_abspath env input_path) /\
  (forall st d out choice output_path lines out',
     load_and_clean env input_path (stdout st) = (Some d, out) ->
     save_prompt env input_path (stdin st) out =
       (inr (choice, output_path), lines, out') ->
     choice = "S" ->
     os_path_abspath env output_path <> os_path_abspath env input_path /\
     files (snd (process_presentation env input_path st)) =
     match save_raises env output_path with
     | None => files st ++ [(output_path, d)]
     | Some _ => files st
     end).
Proof.
  assert (forall lines out choice output_path lines' out',
     save_prompt env input_path lines out =
       (inr (choice, output_path), lines', out') ->
     choice = "S" ->
     os_path_abspath env output_path <> os_path_abspath env input_path) as Hloop.
  { intros lines out choice output_path lines' out' Hprompt ->.
    destruct (save_prompt_result env input_path _ _ _ _ _ _ _ (le_n _) Hprompt)
      as [[HO _]|[_ Hne]]; [discriminate HO|done]. }
  split; [|split].
  - intros line new_name rest out. apply save_prompt_S_same.
  - exact Hloop.
  - intros st d out choice output_path lines out' Hload Hprompt HS. split.
    + by apply (Hloop _ _ _ _ _ _ Hprompt).
    + exact (process_presentation_saves_output env input_path st d out choice
               output_path lines out' Hload Hprompt).
Qed.

Lemma same_path_rejected_witness :
  str_upper sample_env (str_strip sample_env " s ") = "S" /\
  os_path_abspath sample_env
    (resolve_new_path sample_env "deck.pptx"
       (str_strip sample_env "./deck.pptx ")) =
  os_path_abspath sample_env "deck.pptx" /\
  save_prompt sample_env "deck.pptx" [" s "; "./deck.pptx "; "S"; ""] [] =
  (inr ("S", "deck_modified.pptx"), [],
   [choice_prompt; name_prompt "deck_modified.pptx"; same_name_error;
    choice_prompt; name_prompt "deck_modified.pptx"]) /\
  map fst (files (snd (process_presentation sample_env "deck.pptx"
                         (start [" s "; "./deck.pptx "; "S"; ""])))) =
  ["deck_modified.pptx"].
Proof.
  split; [reflexivity|]. split; [reflexivity|].
  destruct (same_path_rejected sample_env "deck.pptx") as (Hsame & _ & Hrun).
  split.
  - rewrite (Hsame " s " "./deck.pptx " ["S"; ""] [] eq_refl eq_refl).
    vm_compute. reflexivity.
  - destruct (load_and_clean sample_env "deck.pptx"
                (stdout (start [" s "; "./deck.pptx "; "S"; ""])))
      as [od out] eqn:Hload.
    assert (exists d, od = Some d) as [d ->].
    { revert Hload. vm_compute. intros [= <- _]. by eexists. }
    destruct (save_prompt sample_env "deck.pptx"
                (stdin (start [" s "; "./deck.pptx "; "S"; ""])) out)
      as [[r lines] out'] eqn:Hprompt.
    assert (r = inr ("S", "deck_modified.pptx")) as ->.
    { revert Hprompt. vm_compute in Hload. injection Hload as _ <-.
      vm_compute. by intros [= <- _ _]. }
    destruct (Hrun _ _ _ _ _ _ _ Hload Hprompt eq_refl) as [_ Hfiles].
    rewrite Hfiles. reflexivity.
Defined.

(** ** The answer to the question *)

Lemma is_ascii_append a b : is_ascii (a +:+ b) = is_ascii a && is_ascii b.
Proof.
  induction a as [|c a IH]; [done|].
  change (is_ascii (String c (a +:+ b)) = is_ascii (String c a) && is_ascii b).
  cbn [is_ascii]. by rewrite IH, andb_assoc.
Qed.

Lemma ascii_isspace_is_ascii c :
  ascii_isspace c = true -> (nat_of_ascii c <? 128)%nat = true.
Proof. by_cases_on_char c; intros H; discriminate H. Qed.

Lemma upper_char_is_ascii c :
  (nat_of_ascii (upper_char c) <? 128)%nat = (nat_of_ascii c <? 128)%nat.
Proof. by_cases_on_char c. Qed.

Lemma lower_char_is_ascii c :
  (nat_of_ascii (lower_char c) <? 128)%nat = (nat_of_ascii c <? 128)%nat.
Proof. by_cases_on_char c. Qed.

Lemma all_space_is_ascii s : all_space s = true -> is_ascii s = true.
Proof.
  induction s as [|c s IH]; [done|]. cbn [all_space is_ascii].
  rewrite !andb_true_iff. intros [Hc Hs].
  split; [by apply ascii_isspace_is_ascii|by apply IH].
Qed.

Lemma is_ascii_upper s : is_ascii (ascii_upper s) = is_ascii s.
Proof.
  induction s as [|c s IH]; [done|]. unfold ascii_upper in *.
  cbn [map_chars is_ascii]. by rewrite upper_char_is_ascii, IH.
Qed.

Lemma is_ascii_lower s : is_ascii (lower s) = is_ascii s.
Proof.
  induction s as [|c s IH]; [done|]. unfold lower in *.
  cbn [map_chars is_ascii]. by rewrite lower_char_is_ascii, IH.
Qed.

Lemma is_ascii_lstrip s : is_ascii s = true -> is_ascii (ascii_lstrip s) = true.
Proof.
  induction s as [|c s IH]; [done|]. cbn [ascii_lstrip].
  destruct (ascii_isspace c); [|done].
  cbn [is_ascii]. rewrite andb_true_iff. intros [_ Hs]. by apply IH.
Qed.

Lemma is_ascii_rstrip s : is_ascii s = true -> is_ascii (ascii_rstrip s) = true.
Proof.
  induction s as [|c s IH]; [done|]. cbn [ascii_rstrip is_ascii].
  rewrite andb_true_iff. intros [Hc Hs]. specialize (IH Hs).
  destruct (ascii_rstrip s) as [|c' r].
  - destruct (ascii_isspace c); [done|]. cbn [is_ascii]. by rewrite Hc.
  - cbn [is_ascii] in *. by rewrite Hc, IH.
Qed.

Lemma is_ascii_strip s : is_ascii s = true -> is_ascii (ascii_strip s) = true.
Proof. intros Hs. by apply is_ascii_rstrip, is_ascii_lstrip. Qed.

(** On ASCII text the answer is normalised by the functions written out. *)
Lemma normalise_ascii env s :
  methods_on_ascii env -> is_ascii s = true ->
  str_upper env (str_strip env s) = ascii_upper (ascii_strip s).
Proof.
  intros Hm Hs. rewrite (proj1 (Hm s Hs)).
  by rewrite (proj2 (Hm (ascii_strip s) (is_ascii_strip s Hs))).
Qed.

(** C10.  The loop sees an answer only through [answer.strip().upper()]:
    answers with the same normal form are treated alike, one that
    normalises to [O] chooses the input path, and one that normalises to
    neither [O] nor [S] prints the error and asks again, on the lines that
    follow.  For ASCII text, where [strip] and [upper] are the functions
    written out, white space around an answer and the case of its letters do
    not matter: a padded, upper-cased or lower-cased answer is treated as
    the answer itself, [O] and [o] with white space around them choose the
    input path, and [S] and [s] with white space around them are treated as
    [S]. *)
Theorem choice_normalised
    (env : Env) (input_path line : string) (rest out : list string) :
  (forall line',
     str_upper env (str_strip env line') = str_upper env (str_strip env line) ->
     save_prompt env input_path (line' :: rest) out =
     save_prompt env input_path (line :: rest) out) /\
  (str_upper env (str_strip env line) = "O" ->
   save_prompt env input_path (line :: rest) out =
   (inr ("O", input_path), rest, out ++ [choice_prompt])) /\
  (str_upper env (str_strip env line) <> "O" ->
   str_upper env (str_strip env line) <> "S" ->
   save_prompt env input_path (line :: rest) out =
   save_prompt env input_path rest
     (out ++ [choice_prompt; invalid_choice_error])) /\
  (methods_on_ascii env ->
   (is_ascii line = true ->
    (forall ws1 ws2, all_space ws1 = true -> all_space ws2 = true ->
       save_prompt env input_path ((ws1 +:+ line +:+ ws2) :: rest) out =
       save_prompt env input_path (line :: rest) out) /\
    save_prompt env input_path (ascii_upper line :: rest) out =
      save_prompt env input_path (line :: rest) out /\
    save_prompt env input_path (lower line :: rest) out =
      save_prompt env input_path (line :: rest) out) /\
   (forall ws1 ws2 letter,
      all_space ws1 = true -> all_space ws2 = true ->
      letter = "O" \/ letter = "o" ->
      save_prompt env input_path ((ws1 +:+ letter +:+ ws2) :: rest) out =
      (inr ("O", input_path), rest, out ++ [choice_prompt])) /\
   (forall ws1 ws2 letter,
      all_space ws1 = true -> all_space ws2 = true ->
      letter = "S" \/ letter = "s" ->
      save_prompt env input_path ((ws1 +:+ letter +:+ ws2) :: rest) out =
      save_prompt env input_path ("S" :: rest) out)).
Proof.
  split; [|split; [|split]].
  - intros line' Hsame. by apply save_prompt_same_choice.
  - apply save_prompt_O.
  - apply save_prompt_invalid.
  - intros Hm.
    assert (forall ws1 s ws2,
      all_space ws1 = true -> all_space ws2 = true -> is_ascii s = true ->
      str_upper env (str_strip env (ws1 +:+ s +:+ ws2)) =
      ascii_upper (ascii_strip s)) as Hpadded.
    { intros ws1 s ws2 H1 H2 Hs. rewrite normalise_ascii; [|done|].
      - by rewrite strip_padded.
      - rewrite !is_ascii_append, Hs.
        by rewrite (all_space_is_ascii ws1), (all_space_is_ascii ws2). }
    split; [|split].
    + intros Hline. split; [|split].
      * intros ws1 ws2 H1 H2. apply save_prompt_same_choice.
        rewrite Hpadded by done. by rewrite normalise_ascii.
      * apply save_prompt_same_choice.
        rewrite !normalise_ascii by (done || by rewrite is_ascii_upper).
        by rewrite strip_upper, upper_idem.
      * apply save_prompt_same_choice.
        rewrite !normalise_ascii by (done || by rewrite is_ascii_lower).
        by rewrite strip_lower, upper_lower.
    + intros ws1 ws2 letter H1 H2 Hletter. apply save_prompt_O.
      destruct Hletter as [-> | ->]; by rewrite Hpadded.
    + intros ws1 ws2 letter H1 H2 Hletter. apply save_prompt_same_choice.
      rewrite (normalise_ascii env "S") by done.
      destruct Hletter as [-> | ->]; by rewrite Hpadded.
Qed.

Lemma sample_env_methods : methods_on_ascii sample_env.
Proof. intros s _. by split. Qed.

Lemma choice_normalised_witness :
  methods_on_ascii sample_env /\ all_space " " = true /\
  save_prompt sample_env "deck.pptx" [" " +:+ "o" +:+ " "; "left"] [] =
    (inr ("O", "deck.pptx"), ["left"], [choice_prompt]) /\
  save_prompt sample_env "deck.pptx" ["x"; " s "; "new.pptx"] [] =
    (inr ("S", "new.pptx"), [],
     [choice_prompt; invalid_choice_error; choice_prompt;
      name_prompt "deck_modified.pptx"]).
Proof.
  split; [exact sample_env_methods|]. split; [reflexivity|]. split.
  - destruct (choice_normalised sample_env "deck.pptx" "o" ["left"] [])
      as (_ & _ & _ & Hascii).
    destruct (Hascii sample_env_methods) as (_ & HO & _).
    exact (HO " " " " "o" eq_refl eq_refl (or_intror eq_refl)).
  - destruct (choice_normalised sample_env "deck.pptx" "x" [" s "; "new.pptx"] [])
      as (_ & _ & Hbad & _).
    rewrite Hbad by (vm_compute; discriminate). vm_compute. reflexivity.
Defined.

(** ** The command line *)

(** C9, as the code has it.  When the input file does not exist or its
    lower-cased name does not end in [.pptx], the script prints one message
    and does nothing else: no line is read, no file is written.  The script
    then runs to its end, so the exit status is 0, as it is whenever the
    script completes. *)
Theorem validation_failure_prints_and_exits_zero
    (env : Env) (input_file : string) (st : State) :
  (validation_fails env input_file ->
   exists message,
     (message = "Error: Input file '" +:+ input_file +:+ "' not found." \/
      message = "Error: Input file '" +:+ input_file +:+ "' is not a .pptx file.") /\
     main env input_file st = (inr VNone, print message st) /\
     exit_status (fst (main env input_file st)) = 0%Z) /\
  (forall v st', main env input_file st = (inr v, st') ->
     exit_status (fst (main env input_file st)) = 0%Z).
Proof.
  split.
  - intros Hfail. unfold main.
    destruct (os_path_exists env input_file) eqn:Hexists; cbn [negb].
    + destruct Hfail as [Hfail|Hfail]; [congruence|].
      rewrite Hfail. cbn [negb]. eexists. split; [by right|]. done.
    + eexists. split; [by left|]. done.
  - intros v st' ->. done.
Qed.

Lemma validation_failure_prints_and_exits_zero_witness :
  validation_fails sample_env "notes.txt" /\
  main sample_env "notes.txt" (start ["O"]) =
    (inr VNone,
     mkState ["Error: Input file 'notes.txt' is not a .pptx file."] ["O"] []) /\
  exit_status (fst (main sample_env "notes.txt" (start ["O"]))) = 0%Z.
Proof.
  assert (validation_fails sample_env "notes.txt") as Hfail
    by (right; vm_compute; reflexivity).
  split; [exact Hfail|].
  destruct (proj1 (validation_failure_prints_and_exits_zero
                     sample_env "notes.txt" (start ["O"])) Hfail)
    as (message & _ & Hmain & Hexit).
  split; [|exact Hexit]. vm_compute. reflexivity.
Defined.

(** C9, counterexample.  The file [missing.pptx] does not exist, the
    script prints its message, and the exit status is 0, not another one. *)
Lemma missing_file_exits_zero :
  ~ (validation_fails sample_env "missing.pptx" ->
     exit_status (fst (main sample_env "missing.pptx" (start []))) <> 0%Z).
Proof.
  intros H. apply H.
  - left. vm_compute. reflexivity.
  - vm_compute. reflexivity.
Qed.

(** ** The worklist as a filter *)

Lemma scan_shapes_filter d shapes : forall wl out,
  NoDup shapes ->
  (forall x, x ∈ shapes -> x ∉ wl) ->
  fst (scan_shapes d shapes wl out) = wl ++ filter (to_remove d) shapes.
Proof.
  induction shapes as [|s rest IH]; intros wl out Hnd Hfresh.
  - cbn [scan_shapes fst]. by rewrite filter_nil, app_nil_r.
  - apply NoDup_cons in Hnd as [Hs Hnd].
    assert (s ∉ wl) as Hswl by (apply Hfresh; by left).
    assert (forall x, x ∈ rest -> x ∉ wl ++ [s]) as Hfresh'.
    { intros x Hx. rewrite elem_of_app, list_elem_of_singleton.
      intros [Hin| ->]; [|done]. apply (Hfresh x); [by right|done]. }
    assert (forall x, x ∈ rest -> x ∉ wl) as Hfresh''.
    { intros x Hx. apply Hfresh. by right. }
    rewrite scan_shapes_cons, scan_shape_cases.
    destruct (decide (linked_picture d s)) as [Hp|Hp].
    + rewrite IH by done. rewrite filter_cons_True by (by left).
      by rewrite <- app_assoc.
    + destruct (decide (linked_group d s)) as [Hg|Hg].
      * rewrite decide_False by done. rewrite IH by done.
        rewrite filter_cons_True by (by right). by rewrite <- app_assoc.
      * rewrite IH by done. rewrite filter_cons_False; [done|].
        unfold to_remove. tauto.
Qed.

(** X1.  In a document whose elements are distinct, the worklist is the
    list of the shapes of the collection that are linked pictures or groups
    with a linked picture, in the order of the collection. *)
Theorem worklist_is_filter (d : Document) (shapes_collection : nat) :
  NoDup (order d) ->
  worklist d shapes_collection =
  filter (to_remove d) (iter_shapes d shapes_collection).
Proof.
  intros Hnd. unfold worklist.
  rewrite scan_shapes_filter; [done|by apply iter_shapes_NoDup|].
  intros x _. apply not_elem_of_nil.
Qed.

Lemma worklist_is_filter_witness :
  NoDup (order sample) /\
  worklist sample 0 = filter (to_remove sample) (iter_shapes sample 0) /\
  filter (to_remove sample) (iter_shapes sample 0) = [1; 5; 12].
Proof.
  assert (NoDup (order sample)) as Hnd by decide_by_compute.
  split; [exact Hnd|]. split; [exact (worklist_is_filter sample 0 Hnd)|].
  vm_compute. reflexivity.
Defined.

(** ** A run on a well-formed tree *)

Lemma scan_shape_step d s wl out :
  s ∉ wl ->
  exists found,
    scan_shape d s wl out = (wl ++ filter (to_remove d) [s], out ++ found) /\
    length found = length (filter (to_remove d) [s]).
Proof.
  intros Hs.
  destruct (decide (linked_picture d s)) as [Hp|Hp].
  - rewrite filter_cons_True by (by left). rewrite filter_nil.
    destruct Hp as [Hty Hh]. apply has_hyperlink_truthy in Hh as [a Ha].
    unfold scan_shape. rewrite decide_True by done. rewrite Ha.
    by eexists [_].
  - destruct (decide (linked_group d s)) as [Hg|Hg].
    + rewrite filter_cons_True by (by right). rewrite filter_nil.
      destruct Hg as [Hty HE].
      destruct (first_match _ _ HE) as (pre & c & post & Heq & Hpre & Hcty & Hch).
      apply has_hyperlink_truthy in Hch as [a Ha].
      unfold scan_shape. rewrite decide_False by congruence.
      rewrite decide_True by done. rewrite Heq.
      rewrite (scan_sub_shapes_first d s pre c post a wl out Hpre Hcty Ha).
      rewrite decide_False by done. by eexists [_].
    + rewrite filter_cons_False by (unfold to_remove; tauto).
      rewrite filter_nil, app_nil_r. rewrite scan_shape_skip by done.
      exists []. by rewrite app_nil_r.
Qed.

Lemma scan_shapes_lines d shapes : forall wl out,
  NoDup shapes ->
  (forall x, x ∈ shapes -> x ∉ wl) ->
  exists found,
    snd (scan_shapes d shapes wl out) = out ++ found /\
    length found = length (filter (to_remove d) shapes).
Proof.
  induction shapes as [|s rest IH]; intros wl out Hnd Hfresh.
  - exists []. cbn [scan_shapes snd]. by rewrite app_nil_r, filter_nil.
  - apply NoDup_cons in Hnd as [Hs Hnd].
    destruct (scan_shape_step d s wl out) as (f1 & Hstep & Hlen1);
      [apply Hfresh; by left|].
    cbn [scan_shapes]. rewrite Hstep.
    destruct (IH (wl ++ filter (to_remove d) [s]) (out ++ f1) Hnd)
      as (f2 & Hout & Hlen2).
    { intros x Hx. rewrite elem_of_app, list_elem_of_filter, list_elem_of_singleton.
      intros [Hin|[_ ->]]; [|done]. apply (Hfresh x); [by right|done]. }
    exists (f1 ++ f2). rewrite Hout, <- app_assoc. split; [done|].
    change (s :: rest) with ([s] ++ rest).
    rewrite filter_app, !length_app. lia.
Qed.

Lemma remove_shapes_attached wl : forall d out,
  NoDup wl ->
  (forall x, x ∈ wl -> is_Some (parent d !! x)) ->
  snd (remove_shapes wl d out) = out ++ replicate (length wl) removed_line /\
  size (parent (fst (remove_shapes wl d out))) + length wl = size (parent d).
Proof.
  induction wl as [|x wl IH]; intros d out Hnd Hatt.
  - cbn [remove_shapes fst snd length replicate]. rewrite app_nil_r.
    split; [done|lia].
  - apply NoDup_cons in Hnd as [Hx Hnd].
    destruct (Hatt x) as [p Hp]; [by left|].
    cbn [remove_shapes]. rewrite (detach_Some d x p Hp).
    destruct (IH (mkDocument (proxy d) (order d) (delete x (parent d)))
                 (out ++ ["Successfully removed shape."]) Hnd) as [Hout Hsize].
    { intros y Hy. cbn [parent]. rewrite lookup_delete_ne by (intros ->; done).
      apply Hatt. by right. }
    split.
    + rewrite Hout, <- app_assoc. done.
    + cbn [parent] in Hsize. rewrite map_size_delete, Hp in Hsize.
      assert (size (parent d) <> 0) by (by apply (map_size_ne_0_lookup_2 _ x)).
      cbn [length]. simpl in Hsize. lia.
Qed.

(** X2.  In a document whose elements are distinct no detachment fails.
    The function prints one line per shape it found, then either that
    nothing was found or the number of shapes followed by that many success
    lines, and it takes exactly that many elements off their parent. *)
Theorem run_on_distinct_elements
    (d : Document) (shapes_collection : nat) (out : list string) :
  NoDup (order d) ->
  let '(_, d', out') :=
    remove_hyperlinked_pictures_from_shapes shapes_collection d out in
  exists found,
    length found = length (worklist d shapes_collection) /\
    out' = out ++ found ++
      match worklist d shapes_collection with
      | [] => ["No hyperlinked pictures found in this collection."]
      | _ :: _ =>
          ("Attempting to remove " +:+
           pretty (length (worklist d shapes_collection)) +:+ " shapes...")
          :: replicate (length (worklist d shapes_collection)) removed_line
      end /\
    size (parent d') + length (worklist d shapes_collection) = size (parent d).
Proof.
  intros Hnd. rewrite run_unfold. cbv zeta.
  destruct (scan_shapes_lines d (iter_shapes d shapes_collection) [] out)
    as (found & Hfound & Hlen);
    [by apply iter_shapes_NoDup|intros x _; apply not_elem_of_nil|].
  assert (worklist d shapes_collection =
          filter (to_remove d) (iter_shapes d shapes_collection)) as Hfilter.
  { unfold worklist.
    rewrite scan_shapes_filter; [done|by apply iter_shapes_NoDup|].
    intros x _. apply not_elem_of_nil. }
  rewrite Hfound. rewrite <- Hfilter in Hlen.
  destruct (worklist d shapes_collection) as [|x wl] eqn:Hwl.
  - exists found. split; [done|]. split; [by rewrite <- app_assoc|].
    cbn [length]. lia.
  - destruct (remove_shapes_attached (x :: wl) d
               ((out ++ found) ++ ["Attempting to remove " +:+
                  pretty (length (x :: wl)) +:+ " shapes..."])) as [Hout Hsize].
    + rewrite Hfilter. apply NoDup_filter. by apply iter_shapes_NoDup.
    + intros y Hy. rewrite <- Hwl in Hy. apply worklist_parent in Hy.
      by rewrite Hy.
    + exists found. split; [done|]. rewrite Hout.
      split; [by rewrite <- !app_assoc|done].
Qed.

Lemma run_on_distinct_elements_witness :
  NoDup (order sample) /\
  remove_hyperlinked_pictures_from_shapes 0 sample ["before"] =
  (VNone, doc_after 0 sample,
   ["before";
    "Found picture with hyperlink: http://x on shape 'Logo'";
    "Found picture with hyperlink within group 'Badge': http://y";
    "Found picture with hyperlink: http://w on shape 'Unnamed Picture'";
    "Attempting to remove 3 shapes...";
    "Successfully removed shape.";
    "Successfully removed shape.";
    "Successfully removed shape."]) /\
  size (parent (doc_after 0 sample)) + 3 = size (parent sample).
Proof.
  assert (NoDup (order sample)) as Hnd by decide_by_compute.
  pose proof (run_on_distinct_elements sample 0 ["before"] Hnd) as Hrun.
  split; [exact Hnd|]. split; [vm_compute; reflexivity|].
  rewrite <- (run_doc sample 0 ["before"]).
  destruct (remove_hyperlinked_pictures_from_shapes 0 sample ["before"])
    as [[v d'] out'].
  destruct Hrun as (found & _ & _ & Hsize). exact Hsize.
Defined.

(** ** The removal loop and the order of the worklist *)

Lemma doc_eq (a b : Document) :
  proxy a = proxy b -> order a = order b -> parent a = parent b -> a = b.
Proof. destruct a, b. simpl. by intros -> -> ->. Qed.

(** X3.  The document the removal loop leaves depends only on which shapes
    are in the worklist, not on their order, on how often they occur or on
    what was printed before. *)
Theorem removal_depends_on_members
    (wl wl' : list nat) (d : Document) (out out' : list string) :
  (forall x, x ∈ wl <-> x ∈ wl') ->
  fst (remove_shapes wl d out) = fst (remove_shapes wl' d out').
Proof.
  intros Hsame. apply doc_eq.
  - by rewrite !remove_shapes_proxy.
  - by rewrite !remove_shapes_order.
  - apply map_eq. intros e. rewrite !remove_shapes_parent.
    apply decide_ext, Hsame.
Qed.

Lemma removal_depends_on_members_witness :
  (forall x, x ∈ [1; 12; 1] <-> x ∈ [12; 1]) /\
  fst (remove_shapes [1; 12; 1] sample []) =
  fst (remove_shapes [12; 1] sample ["before"]).
Proof.
  assert (forall x, x ∈ [1; 12; 1] <-> x ∈ [12; 1]) as Hsame.
  { intros x. rewrite !elem_of_cons, !elem_of_nil. tauto. }
  split; [exact Hsame|].
  exact (removal_depends_on_members [1; 12; 1] [12; 1] sample [] ["before"] Hsame).
Defined.

(** ** The traversal of masters and layouts *)

Lemma clean_cons c cs d : clean (c :: cs) d = clean cs (doc_after c d).
Proof. reflexivity. Qed.

Lemma clean_app cs1 cs2 d : clean (cs1 ++ cs2) d = clean cs2 (clean cs1 d).
Proof. apply fold_left_app. Qed.

(** The document the loops leave is the remover run on the collections in
    turn; what is printed on the way plays no part. *)
Lemma process_layouts_doc i layouts : forall j d out,
  fst (process_layouts i j layouts d out) = clean (map layout_shapes layouts) d.
Proof.
  induction layouts as [|l rest IH]; intros j d out; [done|].
  cbn [process_layouts map]. rewrite clean_cons.
  match goal with
  | |- context [remove_hyperlinked_pictures_from_shapes ?c ?d0 ?o] =>
      pose proof (run_doc d0 c o) as Hdoc;
      destruct (remove_hyperlinked_pictures_from_shapes c d0 o) as [[v d'] out2]
  end.
  cbn [fst snd] in Hdoc. subst d'. apply IH.
Qed.

Lemma process_masters_doc masters : forall i d out,
  fst (process_masters i masters d out) = clean (collections masters) d.
Proof.
  induction masters as [|m rest IH]; intros i d out; [done|].
  cbn [process_masters]. unfold collections. cbn [map concat].
  fold (collections rest). unfold collections_of.
  rewrite <- app_comm_cons, clean_cons, clean_app.
  match goal with
  | |- context [remove_hyperlinked_pictures_from_shapes ?c ?d0 ?o] =>
      pose proof (run_doc d0 c o) as Hdoc;
      destruct (remove_hyperlinked_pictures_from_shapes c d0 o) as [[v d1] out2]
  end.
  cbn [fst snd] in Hdoc. subst d1.
  destruct (slide_layouts m) as [|l ls] eqn:Hls.
  - cbn [map clean fold_left]. apply IH.
  - match goal with
    | |- context [process_layouts ?i0 ?j0 ?ls0 ?d0 ?o] =>
        pose proof (process_layouts_doc i0 ls0 j0 d0 o) as Hlay;
        destruct (process_layouts i0 j0 ls0 d0 o) as [d2 out3]
    end.
    cbn [fst] in Hlay. subst d2. apply IH.
Qed.

Lemma clean_proxy cs : forall d, proxy (clean cs d) = proxy d.
Proof.
  induction cs as [|c cs IH]; intros d; [done|].
  by rewrite clean_cons, IH, doc_after_proxy.
Qed.

Lemma clean_order cs : forall d, order (clean cs d) = order d.
Proof.
  induction cs as [|c cs IH]; intros d; [done|].
  by rewrite clean_cons, IH, doc_after_order.
Qed.

Lemma clean_parent_None cs : forall d e,
  parent d !! e = None -> parent (clean cs d) !! e = None.
Proof.
  induction cs as [|c cs IH]; intros d e Hnone; [done|].
  rewrite clean_cons. apply IH. rewrite doc_after_parent.
  by case_decide.
Qed.

Lemma doc_after_to_remove d c x : to_remove (doc_after c d) x -> to_remove d x.
Proof.
  intros [Hp|Hg].
  - left. by apply doc_after_linked_picture in Hp.
  - right. by apply doc_after_linked_group in Hg.
Qed.

(** Whatever loses its parent was, at the start, a linked picture or a
    linked group right under one of the collections. *)
Lemma clean_parent cs : forall d e,
  parent (clean cs d) !! e = parent d !! e \/
  (parent (clean cs d) !! e = None /\
   exists c, c ∈ cs /\ parent d !! e = Some c /\ to_remove d e).
Proof.
  induction cs as [|c cs IH]; intros d e; [by left|].
  rewrite clean_cons.
  destruct (decide (e ∈ worklist d c)) as [Hin|Hin].
  - right. split.
    + apply clean_parent_None. rewrite doc_after_parent. by rewrite decide_True.
    + exists c. split; [by left|]. split; [by apply worklist_parent|].
      apply worklist_elem in Hin. unfold to_remove. tauto.
  - assert (parent (doc_after c d) !! e = parent d !! e) as Hsame.
    { rewrite doc_after_parent. by rewrite decide_False. }
    destruct (IH (doc_after c d) e) as [Heq|(Hnone & c' & Hc' & Hpar & Hrem)].
    + left. by rewrite Heq.
    + right. split; [done|]. exists c'. split; [by right|].
      split; [by rewrite <- Hsame|]. by apply doc_after_to_remove in Hrem.
Qed.

(** X4.  The traversal only detaches: shapes and document order stay as
    they were, and an element either keeps its parent or loses it, and it
    loses it only if it was, in the document as opened, a linked picture or a
    group with a linked picture right under the shapes of a master or of a
    layout. *)
Theorem traversal_only_detaches_linked
    (i : nat) (masters : list SlideMaster) (d : Document) (out : list string)
    (e : nat) :
  let d' := fst (process_masters i masters d out) in
  proxy d' = proxy d /\ order d' = order d /\
  (parent d' !! e = parent d !! e \/
   (parent d' !! e = None /\
    exists c, c ∈ collections masters /\ parent d !! e = Some c /\
              to_remove d e)).
Proof.
  cbv zeta. rewrite process_masters_doc.
  split; [apply clean_proxy|]. split; [apply clean_order|]. apply clean_parent.
Qed.

Lemma clean_keeps_children cs g : forall d,
  g ∉ cs -> iter_shapes (clean cs d) g = iter_shapes d g.
Proof.
  induction cs as [|c cs IH]; intros d Hg; [done|].
  rewrite clean_cons, IH by (intros ?; apply Hg; by right).
  apply doc_after_children. intros ->. apply Hg. by left.
Qed.

Lemma clean_detaches cs : forall d c x,
  c ∈ cs ->
  x ∈ iter_shapes d c ->
  linked_picture d x \/ (linked_group d x /\ x ∉ cs) ->
  parent (clean cs d) !! x = None.
Proof.
  induction cs as [|c0 cs IH]; intros d c x Hc Hx Hlinked.
  - by apply elem_of_nil in Hc.
  - rewrite clean_cons.
    destruct (decide (x ∈ worklist d c0)) as [Hin|Hin].
    { apply clean_parent_None. rewrite doc_after_parent. by rewrite decide_True. }
    assert (c <> c0) as Hne.
    { intros ->. apply Hin, worklist_elem. split; [done|]. tauto. }
    apply elem_of_cons in Hc as [?|Hc]; [done|].
    apply (IH _ c); [done| |].
    + apply doc_after_iter_shapes. by split.
    + destruct Hlinked as [Hp|[Hg Hnot]].
      * left. by apply doc_after_linked_picture.
      * right. split; [|intros ?; apply Hnot; by right].
        destruct Hg as [Hty HE]. split; [by rewrite doc_after_proxy|].
        rewrite doc_after_children by (intros ->; apply Hnot; by left).
        apply Exists_exists in HE as (p & Hp & Hl).
        apply Exists_exists. exists p. split; [done|].
        by apply doc_after_linked_picture.
Qed.

(** X5.  After the traversal every linked picture that stood right under
    the shapes of a master or of a layout has lost its parent, and so has
    every group with a linked picture that stood there, unless the group is
    itself such a collection. *)
Theorem traversal_detaches_every_linked
    (i : nat) (masters : list SlideMaster) (d : Document) (out : list string)
    (c x : nat) :
  c ∈ collections masters ->
  x ∈ iter_shapes d c ->
  linked_picture d x \/ (linked_group d x /\ x ∉ collections masters) ->
  parent (fst (process_masters i masters d out)) !! x = None.
Proof.
  intros Hc Hx Hlinked. rewrite process_masters_doc.
  by apply (clean_detaches _ _ c).
Qed.

Lemma traversal_detaches_every_linked_witness :
  (30 ∈ collections deck_masters /\ 31 ∈ iter_shapes deck_doc 30 /\
   linked_group deck_doc 31 /\ (31 ∉ collections deck_masters) /\
   parent (fst (process_masters 0 deck_masters deck_doc [])) !! 31 = None) /\
  (20 ∈ collections deck_masters /\ 21 ∈ iter_shapes deck_doc 20 /\
   linked_picture deck_doc 21 /\
   parent (fst (process_masters 0 deck_masters deck_doc [])) !! 21 = None).
Proof.
  assert (30 ∈ collections deck_masters) as H30 by decide_by_compute.
  assert (20 ∈ collections deck_masters) as H20 by decide_by_compute.
  assert (31 ∈ iter_shapes deck_doc 30) as H31 by decide_by_compute.
  assert (21 ∈ iter_shapes deck_doc 20) as H21 by decide_by_compute.
  assert (linked_group deck_doc 31) as Hg by decide_by_compute.
  assert (31 ∉ collections deck_masters) as Hn by decide_by_compute.
  assert (linked_picture deck_doc 21) as Hp by decide_by_compute.
  split.
  - split; [exact H30|]. split; [exact H31|]. split; [exact Hg|].
    split; [exact Hn|].
    exact (traversal_detaches_every_linked 0 deck_masters deck_doc [] 30 31
             H30 H31 (or_intror (conj Hg Hn))).
  - split; [exact H20|]. split; [exact H21|]. split; [exact Hp|].
    exact (traversal_detaches_every_linked 0 deck_masters deck_doc [] 20 21
             H20 H21 (or_introl Hp)).
Defined.

(** ** Nothing left to remove *)

Lemma worklist_doc_after d c0 c x :
  x ∈ worklist (doc_after c0 d) c -> x ∈ worklist d c.
Proof.
  rewrite !worklist_elem. intros [Hx Hrem].
  apply doc_after_iter_shapes in Hx as [Hx _]. split; [done|].
  by apply (doc_after_to_remove d c0).
Qed.

Lemma worklist_doc_after_same d c : worklist (doc_after c d) c = [].
Proof.
  apply elem_of_nil_inv. intros x Hx.
  pose proof (worklist_doc_after d c c x Hx) as Hold.
  apply worklist_elem in Hx as [Hx _].
  apply doc_after_iter_shapes in Hx as [_ Hnot]. done.
Qed.

Lemma worklist_clean cs : forall d c x,
  x ∈ worklist (clean cs d) c -> x ∈ worklist d c.
Proof.
  induction cs as [|c0 cs IH]; intros d c x Hx; [done|].
  rewrite clean_cons in Hx. by apply IH, worklist_doc_after in Hx.
Qed.

Lemma clean_worklist_nil cs : forall d c,
  c ∈ cs -> worklist (clean cs d) c = [].
Proof.
  induction cs as [|c0 cs IH]; intros d c Hc; [by apply elem_of_nil in Hc|].
  rewrite clean_cons. apply elem_of_cons in Hc as [->|Hc]; [|by apply IH].
  apply elem_of_nil_inv. intros x Hx. apply worklist_clean in Hx.
  rewrite worklist_doc_after_same in Hx. by apply elem_of_nil in Hx.
Qed.

Lemma doc_after_id d c : worklist d c = [] -> doc_after c d = d.
Proof. intros Hwl. unfold doc_after. by rewrite run_nothing_listed. Qed.

Lemma clean_id cs : forall d,
  (forall c, c ∈ cs -> worklist d c = []) -> clean cs d = d.
Proof.
  induction cs as [|c0 cs IH]; intros d Hnil; [done|].
  rewrite clean_cons, doc_after_id by (apply Hnil; by left).
  apply IH. intros c Hc. apply Hnil. by right.
Qed.

(** X6.  After the traversal the worklist of every collection it visited
    is empty, and a second traversal of the same masters, whatever is printed
    meanwhile, returns the document as it is. *)
Theorem traversal_leaves_nothing
    (i : nat) (masters : list SlideMaster) (d : Document) (out : list string) :
  let d' := fst (process_masters i masters d out) in
  (forall c, c ∈ collections masters -> worklist d' c = []) /\
  (forall i' out', fst (process_masters i' masters d' out') = d').
Proof.
  cbv zeta. rewrite process_masters_doc.
  assert (forall c, c ∈ collections masters ->
            worklist (clean (collections masters) d) c = []) as Hnil.
  { intros c Hc. by apply clean_worklist_nil. }
  split; [done|]. intros i' out'. rewrite process_masters_doc.
  by apply clean_id.
Qed.

(** X7.  A document in which no shape of a master or of a layout is a
    linked picture or a group with a linked picture comes out of the
    traversal as it went in. *)
Theorem traversal_without_linked_shapes
    (i : nat) (masters : list SlideMaster) (d : Document) (out : list string) :
  (forall c x, c ∈ collections masters -> x ∈ iter_shapes d c ->
               ~ to_remove d x) ->
  fst (process_masters i masters d out) = d.
Proof.
  intros Hnone. rewrite process_masters_doc. apply clean_id.
  intros c Hc. apply elem_of_nil_inv. intros x Hx.
  apply worklist_elem in Hx as [Hx Hrem]. by apply (Hnone c x).
Qed.

Lemma traversal_without_linked_shapes_witness :
  (forall c x, c ∈ collections [mkSlideMaster 0 [mkSlideLayout 1]] ->
               x ∈ iter_shapes scenarioB c -> ~ to_remove scenarioB x) /\
  fst (process_masters 0 [mkSlideMaster 0 [mkSlideLayout 1]] scenarioB []) =
  scenarioB.
Proof.
  assert (forall c x, c ∈ collections [mkSlideMaster 0 [mkSlideLayout 1]] ->
            x ∈ iter_shapes scenarioB c -> ~ to_remove scenarioB x) as Hnone.
  { assert (Forall (fun c => Forall (fun x => ~ to_remove scenarioB x)
                                     (iter_shapes scenarioB c))
                     (collections [mkSlideMaster 0 [mkSlideLayout 1]])) as Hall
      by decide_by_compute.
    intros c x Hc Hx. rewrite Forall_forall in Hall.
    pose proof (Hall c Hc) as Hcx. rewrite Forall_forall in Hcx.
    by apply Hcx. }
  split; [exact Hnone|].
  exact (traversal_without_linked_shapes 0 _ scenarioB [] Hnone).
Defined.

(** ** What [process_presentation] writes *)

Lemma load_and_clean_doc env input_path out prs :
  Presentation env input_path = inr prs ->
  fst (load_and_clean env input_path out) =
  Some (clean (collections (slide_masters prs)) (tree prs)).
Proof.
  intros Hopen. unfold load_and_clean. rewrite Hopen.
  destruct (slide_masters prs) as [|m ms] eqn:Hms; [done|].
  match goal with
  | |- context [process_masters ?i0 ?ms0 ?d0 ?o] =>
      pose proof (process_masters_doc ms0 i0 d0 o) as Hdoc;
      destruct (process_masters i0 ms0 d0 o) as [d1 out1]
  end.
  cbn [fst] in *. by rewrite Hdoc.
Qed.

(** X8.  When the file cannot be opened, [process_presentation] prints the
    error and does nothing else.  Otherwise it writes at most one file, only
    when saving does not raise, and what it writes is the opened document
    after the traversal of its masters and layouts. *)
Theorem written_file_is_cleaned (env : Env) (input_path : string) (st : State) :
  match Presentation env input_path with
  | inl e =>
      process_presentation env input_path st =
      (inr VNone,
       print ("Error opening presentation '" +:+ input_path +:+ "': " +:+ str e)
             st)
  | inr prs =>
      let '(r, st') := process_presentation env input_path st in
      files st' = files st \/
      exists output_path,
        save_raises env output_path = None /\
        r = inr VNone /\
        files st' = files st ++
          [(output_path, clean (collections (slide_masters prs)) (tree prs))]
  end.
Proof.
  destruct (Presentation env input_path) as [e|prs] eqn:Hopen.
  - unfold process_presentation, load_and_clean. by rewrite Hopen.
  - pose proof (load_and_clean_doc env input_path (stdout st) prs Hopen) as Hdoc.
    unfold process_presentation.
    destruct (load_and_clean env input_path (stdout st)) as [od out].
    cbn [fst] in Hdoc. subst od.
    destruct (save_prompt env input_path (stdin st) out)
      as [[[e|[choice output_path]] lines] out']; [by left|].
    unfold save. destruct (save_raises env output_path) eqn:Hsave; [by left|].
    right. by exists output_path.
Qed.

(** ** The end of the input *)

Lemma save_prompt_inl env input_path n : forall lines out e lines' out',
  length lines <= n ->
  save_prompt env input_path lines out = (inl e, lines', out') ->
  e = EOFError /\ lines' = [].
Proof.
  induction n as [|n IH]; intros lines out e lines' out' Hlen.
  - destruct lines; [|simpl in Hlen; lia]. by intros [= <- <- _].
  - destruct lines as [|line rest]; [by intros [= <- <- _]|].
    simpl in Hlen. cbn [save_prompt].
    destruct (decide (str_upper env (str_strip env line) = "O"));
      [discriminate|].
    destruct (decide (str_upper env (str_strip env line) = "S")).
    + destruct rest as [|new_name rest2]; [by intros [= <- <- _]|].
      case_decide; [|discriminate]. apply IH. simpl in Hlen. lia.
    + apply IH. lia.
Qed.

Lemma load_and_clean_Some env input_path out d out' :
  load_and_clean env input_path out = (Some d, out') ->
  exists prs, Presentation env input_path = inr prs.
Proof.
  unfold load_and_clean.
  destruct (Presentation env input_path) as [e|prs]; [discriminate|].
  intros _. by exists prs.
Qed.

(** X9.  When the script ends with the [EOFError] of a prompt, the file
    had passed both checks and had been opened, the input is used up and no
    file has been written. *)
Theorem end_of_input_writes_nothing
    (env : Env) (input_file : string) (st st' : State) :
  main env input_file st = (inl EOFError, st') ->
  stdin st' = [] /\ files st' = files st /\
  os_path_exists env input_file = true /\
  endswith (lower input_file) ".pptx" = true /\
  exists prs, Presentation env input_file = inr prs.
Proof.
  unfold main.
  destruct (os_path_exists env input_file); cbn [negb]; [|discriminate].
  destruct (endswith (lower input_file) ".pptx"); cbn [negb]; [|discriminate].
  unfold process_presentation.
  destruct (load_and_clean env input_file (stdout st)) as [[d|] out1] eqn:Hload;
    [|discriminate].
  destruct (save_prompt env input_file (stdin st) out1)
    as [[[e1|[choice output_path]] lines] out'] eqn:Hprompt; [|discriminate].
  intros [= -> <-]. cbn [stdin files].
  destruct (save_prompt_inl env input_file _ _ _ _ _ _ (le_n _) Hprompt)
    as [_ ->].
  repeat split; try done. by apply (load_and_clean_Some _ _ _ _ _ Hload).
Qed.

Lemma end_of_input_writes_nothing_witness :
  main deck_env "deck.pptx" (start ["x"; "S"]) =
    (inl EOFError,
     mkState (stdout (snd (main deck_env "deck.pptx" (start ["x"; "S"])))) [] []) /\
  os_path_exists deck_env "deck.pptx" = true.
Proof.
  assert (main deck_env "deck.pptx" (start ["x"; "S"]) =
    (inl EOFError,
     mkState (stdout (snd (main deck_env "deck.pptx" (start ["x"; "S"])))) [] []))
    as Hrun by (vm_compute; reflexivity).
  split; [exact Hrun|].
  exact (proj1 (proj2 (proj2
    (end_of_input_writes_nothing deck_env "deck.pptx" _ _ Hrun)))).
Defined.

(** ** The new name *)

Lemma strip_all_space s : all_space s = true -> ascii_strip s = "".
Proof. intros Hs. unfold ascii_strip. by rewrite lstrip_all_space. Qed.

(** X10.  Under [S] a new name that is empty or blank (one that strips to
    the empty string; on ASCII text, one of white space only) selects
    [<base>_modified<ext>]: the loop ends with it when its absolute path is
    not that of the input, and asks again when it is. *)
Theorem blank_name_selects_default
    (env : Env) (input_path line new_name : string) (rest out : list string) :
  str_upper env (str_strip env line) = "S" ->
  str_strip env new_name = "" \/
  (methods_on_ascii env /\ all_space new_name = true) ->
  save_prompt env input_path (line :: new_name :: rest) out =
  if decide (os_path_abspath env (default_new_path env input_path) =
             os_path_abspath env input_path)
  then save_prompt env input_path rest
         (out ++ [choice_prompt; name_prompt (default_new_path env input_path);
                  same_name_error])
  else (inr ("S", default_new_path env input_path), rest,
        out ++ [choice_prompt; name_prompt (default_new_path env input_path)]).
Proof.
  intros HS Hblank.
  assert (str_strip env new_name = "") as Hempty.
  { destruct Hblank as [Hempty|[Hm Hspace]]; [done|].
    rewrite (proj1 (Hm new_name (all_space_is_ascii new_name Hspace))).
    by apply strip_all_space. }
  assert (resolve_new_path env input_path (str_strip env new_name) =
          default_new_path env input_path) as Hdefault.
  { unfold resolve_new_path. rewrite Hempty. by rewrite decide_True. }
  case_decide as Hsame.
  - apply save_prompt_S_same; [done|]. by rewrite Hdefault.
  - rewrite (save_prompt_S_other env input_path line new_name rest out HS)
      by (by rewrite Hdefault).
    by rewrite Hdefault.
Qed.

Lemma blank_name_selects_default_witness :
  str_upper sample_env (str_strip sample_env "s") = "S" /\
  methods_on_ascii sample_env /\ all_space "  " = true /\
  save_prompt sample_env "deck.pptx" ["s"; "  "; "unread"] [] =
  (inr ("S", "deck_modified.pptx"), ["unread"],
   [choice_prompt; name_prompt "deck_modified.pptx"]).
Proof.
  split; [reflexivity|]. split; [exact sample_env_methods|].
  split; [reflexivity|].
  rewrite (blank_name_selects_default sample_env "deck.pptx" "s" "  "
             ["unread"] [] eq_refl
             (or_intror (conj sample_env_methods eq_refl))).
  vm_compute. reflexivity.
Defined.

(** ** Answers that are no choice *)

(** X11.  Answers that normalise to neither [O] nor [S] are passed over
    one by one: each costs the question and the error line, and the loop
    goes on with the lines after them. *)
Theorem invalid_answers_skipped
    (env : Env) (input_path : string) (answers rest : list string)
    (out : list string) :
  Forall (invalid_choice env) answers ->
  save_prompt env input_path (answers ++ rest) out =
  save_prompt env input_path rest
    (out ++ concat (map (fun _ => [choice_prompt; invalid_choice_error]) answers)).
Proof.
  intros Hall. revert out.
  induction Hall as [|line answers [HO HS] _ IH]; intros out.
  - cbn [map concat app]. by rewrite app_nil_r.
  - rewrite <- app_comm_cons, save_prompt_invalid by done.
    rewrite IH. cbn [map concat]. by rewrite <- !app_assoc.
Qed.

Lemma invalid_answers_skipped_witness :
  Forall (invalid_choice sample_env) ["yes"; ""; "os"] /\
  save_prompt sample_env "deck.pptx" (["yes"; ""; "os"] ++ ["o"; "unread"]) [] =
  (inr ("O", "deck.pptx"), ["unread"],
   [choice_prompt; invalid_choice_error; choice_prompt; invalid_choice_error;
    choice_prompt; invalid_choice_error; choice_prompt]).
Proof.
  assert (Forall (invalid_choice sample_env) ["yes"; ""; "os"]) as Hall.
  { repeat constructor; vm_compute; discriminate. }
  split; [exact Hall|].
  rewrite (invalid_answers_skipped sample_env "deck.pptx" _ ["o"; "unread"] [] Hall).
  vm_compute. reflexivity.
Defined.

(** ** The extension check *)

Lemma length_append_string a b :
  String.length (a +:+ b) = String.length a + String.length b.
Proof. induction a as [|c a IH]; simpl; [done|]. by rewrite IH. Qed.

Lemma length_map_chars f s : String.length (map_chars f s) = String.length s.
Proof. induction s as [|c s IH]; simpl; [done|]. by rewrite IH. Qed.

Lemma map_chars_append f a b :
  map_chars f (a +:+ b) = map_chars f a +:+ map_chars f b.
Proof. induction a as [|c a IH]; simpl; [done|]. by rewrite IH. Qed.

Lemma map_chars_substring f s : forall k m,
  map_chars f (substring k m s) = substring k m (map_chars f s).
Proof.
  induction s as [|c s IH]; intros k m.
  - by destruct k, m.
  - destruct k as [|k]; simpl.
    + destruct m as [|m]; simpl; [done|]. by rewrite IH.
    + apply IH.
Qed.

Lemma substring_whole s : substring 0 (String.length s) s = s.
Proof. induction s as [|c s IH]; simpl; [done|]. by rewrite IH. Qed.

Lemma substring_append_right a b :
  substring (String.length a) (String.length b) (a +:+ b) = b.
Proof. induction a as [|c a IH]; simpl; [apply substring_whole|done]. Qed.

Lemma substring_split s : forall k,
  k <= String.length s ->
  s = substring 0 k s +:+ substring k (String.length s - k) s.
Proof.
  induction s as [|c s IH]; intros k Hk.
  - by destruct k.
  - destruct k as [|k]; simpl.
    + by rewrite substring_whole.
    + simpl in Hk.
      change (String c s =
              String c (substring 0 k s +:+ substring k (String.length s - k) s)).
      f_equal. apply IH. lia.
Qed.

Lemma endswith_true s suffix :
  endswith s suffix = true <-> exists a, s = a +:+ suffix.
Proof.
  unfold endswith. rewrite andb_true_iff, Nat.leb_le, bool_decide_eq_true.
  split.
  - intros [Hle Hsub].
    exists (substring 0 (String.length s - String.length suffix) s).
    assert (String.length s - String.length suffix <= String.length s) as Hk
      by lia.
    pose proof (substring_split s _ Hk) as Hsplit.
    replace (String.length s - (String.length s - String.length suffix))
      with (String.length suffix) in Hsplit by lia.
    by rewrite Hsub in Hsplit.
  - intros [a ->]. rewrite length_append_string. split; [lia|].
    replace (String.length a + String.length suffix - String.length suffix)
      with (String.length a) by lia.
    apply substring_append_right.
Qed.

Lemma endswith_lower_pptx input_file :
  endswith (lower input_file) ".pptx" = true <-> has_pptx_extension input_file.
Proof.
  split.
  - intros Hends.
    pose proof Hends as Hcopy. unfold endswith in Hcopy.
    apply andb_true_iff in Hcopy as [Hle Hsub].
    apply Nat.leb_le in Hle. apply bool_decide_eq_true in Hsub.
    unfold lower in Hle, Hsub. rewrite length_map_chars in Hle, Hsub.
    exists (substring 0 (String.length input_file - String.length ".pptx")
                      input_file),
           (substring (String.length input_file - String.length ".pptx")
                      (String.length ".pptx") input_file).
    split.
    + assert (String.length input_file - String.length ".pptx"
              <= String.length input_file) as Hk by lia.
      pose proof (substring_split input_file _ Hk) as Hsplit.
      replace (String.length input_file -
               (String.length input_file - String.length ".pptx"))
        with (String.length ".pptx") in Hsplit by lia.
      exact Hsplit.
    + unfold lower. by rewrite map_chars_substring.
  - intros (stem & ext & -> & Hext). apply endswith_true.
    exists (lower stem). unfold lower in *. by rewrite map_chars_append, Hext.
Qed.

(** X12.  For a file that exists, the script goes on to
    [process_presentation] exactly when the name is a stem followed by
    [.pptx] in any mix of upper and lower case (the stem may be empty);
    otherwise it prints that the file is not a .pptx file and stops. *)
Theorem extension_check_ignores_case
    (env : Env) (input_file : string) (st : State) :
  os_path_exists env input_file = true ->
  (has_pptx_extension input_file ->
   main env input_file st = process_presentation env input_file st) /\
  (~ has_pptx_extension input_file ->
   main env input_file st =
   (inr VNone,
    print ("Error: Input file '" +:+ input_file +:+ "' is not a .pptx file.") st)).
Proof.
  intros Hexists. unfold main. rewrite Hexists. cbn [negb]. split.
  - intros Hext. apply endswith_lower_pptx in Hext. by rewrite Hext.
  - intros Hext. rewrite <- endswith_lower_pptx in Hext.
    apply not_true_is_false in Hext. by rewrite Hext.
Qed.

Lemma extension_check_ignores_case_witness :
  os_path_exists empty_env "Deck.PpTx" = true /\
  has_pptx_extension "Deck.PpTx" /\
  main empty_env "Deck.PpTx" (start []) =
  process_presentation empty_env "Deck.PpTx" (start []) /\
  os_path_exists empty_env "deck.pptx.bak" = true /\
  ~ has_pptx_extension "deck.pptx.bak" /\
  main empty_env "deck.pptx.bak" (start []) =
  (inr VNone,
   mkState ["Error: Input file 'deck.pptx.bak' is not a .pptx file."] [] []).
Proof.
  assert (has_pptx_extension "Deck.PpTx") as Hyes
    by (exists "Deck", ".PpTx"; split; reflexivity).
  assert (~ has_pptx_extension "deck.pptx.bak") as Hno.
  { rewrite <- endswith_lower_pptx. vm_compute. discriminate. }
  split; [reflexivity|]. split; [exact Hyes|]. split.
  - exact (proj1 (extension_check_ignores_case empty_env "Deck.PpTx" (start [])
                    eq_refl) Hyes).
  - split; [reflexivity|]. split; [exact Hno|].
    exact (proj2 (extension_check_ignores_case empty_env "deck.pptx.bak"
                    (start []) eq_refl) Hno).
Defined.

(** ** The sample deck *)

Example deck_run :
  main deck_env "deck.pptx" (start ["S"; "clean.pptx"]) =
  (inr VNone,
   mkState
     ["Processing presentation: deck.pptx";
      nl +:+ "--- Processing 1 Slide Master(s) ---";
      nl +:+ "Processing Slide Master 1...";
      "Found picture with hyperlink: http://x on shape 'Logo'";
      "Attempting to remove 1 shapes...";
      "Successfully removed shape.";
      nl +:+ "--- Processing 2 Slide Layout(s) for Master 1 ---";
      nl +:+ "Processing Slide Layout 1 (from Master 1)...";
      "Found picture with hyperlink: http://c on shape 'Corner'";
      "Attempting to remove 1 shapes...";
      "Successfully removed shape.";
      nl +:+ "Processing Slide Layout 2 (from Master 1)...";
      "Found picture with hyperlink within group 'Stamp': http://y";
      "Attempting to remove 1 shapes...";
      "Successfully removed shape.";
      choice_prompt;
      name_prompt "deck_modified.pptx";
      "Presentation saved to: clean.pptx"]
     []
     [("clean.pptx", clean [0; 20; 30] deck_doc)]).
Proof. vm_compute. reflexivity. Qed.

Example deck_slide_untouched :
  parent (clean [0; 20; 30] deck_doc) !! 41 = Some 40 /\
  iter_shapes (clean [0; 20; 30] deck_doc) 31 = [32; 33] /\
  iter_shapes (clean [0; 20; 30] deck_doc) 0 = [2].
Proof. vm_compute. repeat split; reflexivity. Qed.

Example deck_save_fails :
  main deck_env "deck.pptx" (start ["S"; "locked.pptx"]) =
  (inr VNone,
   mkState
     (stdout (snd (main deck_env "deck.pptx" (start ["S"]))) ++
      ["Error saving presentation to 'locked.pptx': Permission denied"])
     [] []).
Proof. vm_compute. reflexivity. Qed.

(** ** Answers outside ASCII *)

Lemma unicode_env_methods : methods_on_ascii unicode_env.
Proof.
  intros s Hs. cbn [unicode_env str_strip str_upper].
  unfold unicode_strip, unicode_upper. split.
  - case_decide as Heq; [|done]. rewrite Heq in Hs. vm_compute in Hs.
    discriminate Hs.
  - case_decide as Heq; [|done]. rewrite Heq in Hs. vm_compute in Hs.
    discriminate Hs.
Qed.

(** With methods that upper-case the long s to [S] and strip the no-break
    space, the loop takes the long s as [S] and a padded [o] as [O]. *)
Example long_s_chooses_S :
  save_prompt unicode_env "deck.pptx" [long_s; "new.pptx"] [] =
  (inr ("S", "new.pptx"), [],
   [choice_prompt; name_prompt "deck_modified.pptx"]).
Proof. vm_compute. reflexivity. Qed.

Example padded_o_chooses_O :
  save_prompt unicode_env "deck.pptx" [nbsp +:+ "o" +:+ nbsp; "unread"] [] =
  (inr ("O", "deck.pptx"), ["unread"], [choice_prompt]).
Proof. vm_compute. reflexivity. Qed.
